(** * panino-docs: the JSD tree assembler ([jsd_parser.js])

    A shallow embedding of [process_jsd] and its helpers
    ([createBasicTranslation], [trim]) from
    [lib/panino/plugins/parsers/jsd_parser.js], and the properties of the
    assembler that the design document states.

    Conventions of the embedding:
    - a JavaScript string is a [string] (a sequence of 8-bit code units);
    - a property that is absent or holds [undefined] is [None];
    - [console.warn] output is a list of [Warning]s, [process.exit(1)] after
      [console.error(i)] is the outcome [FatalName i], an uncaught
      [TypeError] is the outcome [Thrown];
    - the [nodes] object is an association list in insertion order, and
      [_.each] visits it in an order that the engine chooses
      ([Enumeration]); the [list] object handed to the callback is a
      [gmap]. *)

From Stdlib Require Import ZArith Ascii String List Permutation Lia.
From stdpp Require Import base gmap strings list fin_maps.

Local Open Scope string_scope.
Local Open Scope Z_scope.

(** ** String primitives of the host language *)

Module JsString.

(** [s.indexOf(c)] for a one-character needle: first index, or [-1]. *)
Fixpoint indexOf_from (c : ascii) (s : string) (i : Z) : Z :=
  match s with
  | EmptyString => -1
  | String a s' => if Ascii.eqb a c then i else indexOf_from c s' (i + 1)
  end.

Definition indexOf (c : ascii) (s : string) : Z := indexOf_from c s 0.

(** [s.lastIndexOf(c)] for a one-character needle: last index, or [-1]. *)
Fixpoint lastIndexOf_from (c : ascii) (s : string) (i acc : Z) : Z :=
  match s with
  | EmptyString => acc
  | String a s' =>
      lastIndexOf_from c s' (i + 1) (if Ascii.eqb a c then i else acc)
  end.

Definition lastIndexOf (c : ascii) (s : string) : Z :=
  lastIndexOf_from c s 0 (-1).

Definition length (s : string) : Z := Z.of_nat (String.length s).

(** [s.substr(start, len)]: [len] code units from [start]; a length that is
    zero or negative gives the empty string. *)
Definition substr (start : nat) (len : Z) (s : string) : string :=
  String.substring start (Z.to_nat len) s.

(** [s.split(c)] for a one-character separator: always at least one
    segment. *)
Fixpoint split (c : ascii) (s : string) : list string :=
  match s with
  | EmptyString => [EmptyString]
  | String a s' =>
      if Ascii.eqb a c then EmptyString :: split c s'
      else match split c s' with
           | seg :: segs => String a seg :: segs
           | [] => [String a EmptyString]
           end
  end.

(** [[a, b].join(sep)] on a two-element array whose first element may be
    [undefined]: [undefined] is rendered as the empty string. *)
Definition join2 (a : option string) (b : string) (sep : string) : string :=
  default "" a +:+ sep +:+ b.

(** Truthiness of a value that is [undefined] or a string. *)
Definition truthy (v : option string) : bool :=
  match v with
  | Some s => negb (String.eqb s "")
  | None => false
  end.

Definition space : ascii := " "%char.
Definition newline : ascii := "010"%char.
Definition carriage_return : ascii := "013"%char.

(** Line terminators: the characters the regular-expression atom [.] does
    not match. *)
Definition is_line_terminator (a : ascii) : bool :=
  Ascii.eqb a newline || Ascii.eqb a carriage_return.

(** Canonical form under the [i] flag, as far as it matters for an ASCII
    pattern: an ASCII lower-case letter becomes its upper-case letter.  (A
    character outside ASCII is never canonically equal to an ASCII one; it
    is left as it is.) *)
Definition canonicalize (a : ascii) : ascii :=
  let n := nat_of_ascii a in
  if ((97 <=? n)%nat && (n <=? 122)%nat)%bool
  then ascii_of_nat (n - 32) else a.

(** [pat] matches at the start of [s], ignoring case. *)
Fixpoint prefix_ci (pat s : string) : bool :=
  match pat, s with
  | EmptyString, _ => true
  | String p pat', String a s' =>
      Ascii.eqb (canonicalize p) (canonicalize a) && prefix_ci pat' s'
  | String _ _, EmptyString => false
  end.

End JsString.

(** [/^@todo/i.test(doc)] *)
Definition todo_marked (doc : string) : bool := JsString.prefix_ci "@todo" doc.

(** [trim]: [str.replace(/^ +| +$/g, '')], removing the leading run and the
    trailing run of spaces (and nothing but spaces). *)
Fixpoint drop_spaces (s : string) : string :=
  match s with
  | String a s' => if Ascii.eqb a JsString.space then drop_spaces s' else s
  | EmptyString => EmptyString
  end.

Fixpoint drop_trailing_spaces (s : string) : string :=
  match s with
  | EmptyString => EmptyString
  | String a s' =>
      match drop_trailing_spaces s' with
      | EmptyString =>
          if Ascii.eqb a JsString.space then EmptyString
          else String a EmptyString
      | r => String a r
      end
  end.

Definition trim (str : string) : string :=
  drop_trailing_spaces (drop_spaces str).

(** [description.replace(/\n\n[\s\S]*$/, '\n')]: everything from the first
    blank line on is replaced by one newline. *)
Fixpoint short_description_of (s : string) : string :=
  match s with
  | EmptyString => EmptyString
  | String a s' =>
      match s' with
      | String b _ =>
          if (Ascii.eqb a JsString.newline && Ascii.eqb b JsString.newline)%bool
          then String JsString.newline EmptyString
          else String a (short_description_of s')
      | EmptyString => String a EmptyString
      end
  end.

(** [id.replace(/(.+)\.(.+)$/, '$1#$2')].

    Both groups are greedy runs of characters other than line terminators
    and the match is anchored at the end of the string, so a match picks
    the last ["."] that still has a character after it; it exists when
    that dot is preceded by a character, and no line terminator occurs from
    that character on.  The replacement rewrites exactly that dot to ["#"].

    [bound_scan] walks the reversed string after its first character (the
    last character of the id, which belongs to the second group). *)
Fixpoint bound_scan (r : list ascii) : option (list ascii) :=
  match r with
  | [] => None
  | d :: r' =>
      if JsString.is_line_terminator d then None
      else if Ascii.eqb d "."%char then
        match r' with
        | e :: _ =>
            if JsString.is_line_terminator e then None
            else Some ("#"%char :: r')
        | [] => None
        end
      else option_map (cons d) (bound_scan r')
  end.

Definition bound_id (id : string) : string :=
  match rev (list_ascii_of_string id) with
  | [] => id
  | c :: r =>
      if JsString.is_line_terminator c then id
      else match bound_scan r with
           | Some r' => string_of_list_ascii (rev (c :: r'))
           | None => id
           end
  end.

(** ** Data model *)

(** A tag value of which the assembler reads the [doc] property
    ([version], [since], [allowchild], [define]). *)
Record DocTag := { tag_doc : string }.

(** [author]: the assembler reads its [length] and [doc] properties. *)
Record AuthorTag := { author_length : Z; author_doc : option string }.

Record SeeTag := { see_name : string }.
Record InheritDoc := { inheritdoc_src : string }.

Record Param := {
  p_name : string;
  p_doc : string;
  p_type : string;
  p_optional : bool;
}.

Record ReturnSpec := { ret_type : string; ret_description : string }.

(** The merged docset, restricted to the properties the assembler reads
    ([comment] and [code] are never read after merging).  As in the data
    model, [tagname] and [name] are strings, and so are the [type] of a
    parameter and of a return spec; the optional properties are the ones
    the assembler tests against [undefined]. *)
Record Docset := {
  d_tagname : string;
  d_name : string;
  d_doc : option string;
  d_linenr : Z;
  d_type : option string;
  d_params : option (list Param);
  d_return : option ReturnSpec;
  d_inherits : option (list string);
  d_inheritdoc : option InheritDoc;
  d_see : option SeeTag;
  d_author : option AuthorTag;
  d_version : option DocTag;
  d_since : option DocTag;
  d_private : option bool;
  d_experimental : option bool;
  d_chainable : option bool;
  d_bound : option bool;
  d_allowchild : option DocTag;
  d_define : option DocTag;
  d_cancelable : option bool;
  d_bubbles : option bool;
}.

Record Argument := {
  a_name : string;
  a_description : string;
  a_types : list string;
  a_optional : bool;
}.

(** [ret] of the method/event branch: starts as the empty object. *)
Record ReturnRec := {
  r_type : option string;
  r_isArray : option bool;
  r_description : option string;
}.

(** An element of the [returns] array of a synthetic signature. *)
Record TypeRef := { tr_type : option string }.

(** A signature object.  The method/event branch writes the properties
    [arguments] and [return]; the property/attribute/binding branches write
    [arguments] and [returns]. *)
Record Signature := {
  sig_arguments : option (list Argument);
  sig_return : option ReturnRec;
  sig_returns : option (list TypeRef);
}.

(** The value of a node's [bound] property: a flag before post-processing,
    the id of the twin node after it. *)
Inductive BoundVal :=
| BoundFlag (b : bool)
| BoundRef (id : string).

Definition bound_truthy (v : option BoundVal) : bool :=
  match v with
  | Some (BoundFlag b) => b
  | Some (BoundRef id) => negb (String.eqb id "")
  | None => false
  end.

Record Node := mkNode {
  n_id : string;
  n_type : string;
  n_inheritdoc : option string;
  n_description : option string;
  n_short_description : option string;
  n_line : Z;
  n_private : option bool;
  n_experimental : option bool;
  n_chainable : option bool;
  n_related_to : option string;
  n_author : option string;
  n_version : option string;
  n_since : option string;
  n_inherits : option (list string);
  n_allowchild : option string;
  n_define : option string;
  n_signatures : option (list Signature);
  n_arguments : option (list Argument);
  n_cancelable : option bool;
  n_bubbles : option bool;
  n_aliases : option (list string);
  n_children : option (list string);
  n_file : option string;
  n_subclasses : option (list string);
  n_section : option string;
  n_bound : option BoundVal;
}.

(** Property assignments [node.f = v]. *)
Definition set_id (v : string) (n : Node) : Node :=
  let 'mkNode _ ty ih de sd li pr ex ch rt au ve si inh al df sg ar ca bu
              ali chi fi su se bo := n in
  mkNode v ty ih de sd li pr ex ch rt au ve si inh al df sg ar ca bu
         ali chi fi su se bo.

Definition set_inherits (v : list string) (n : Node) : Node :=
  let 'mkNode id ty ih de sd li pr ex ch rt au ve si _ al df sg ar ca bu
              ali chi fi su se bo := n in
  mkNode id ty ih de sd li pr ex ch rt au ve si (Some v) al df sg ar ca bu
         ali chi fi su se bo.

Definition set_allowchild (v : string) (n : Node) : Node :=
  let 'mkNode id ty ih de sd li pr ex ch rt au ve si inh _ df sg ar ca bu
              ali chi fi su se bo := n in
  mkNode id ty ih de sd li pr ex ch rt au ve si inh (Some v) df sg ar ca bu
         ali chi fi su se bo.

Definition set_define (v : string) (n : Node) : Node :=
  let 'mkNode id ty ih de sd li pr ex ch rt au ve si inh al _ sg ar ca bu
              ali chi fi su se bo := n in
  mkNode id ty ih de sd li pr ex ch rt au ve si inh al (Some v) sg ar ca bu
         ali chi fi su se bo.

Definition set_signatures (v : list Signature) (n : Node) : Node :=
  let 'mkNode id ty ih de sd li pr ex ch rt au ve si inh al df _ ar ca bu
              ali chi fi su se bo := n in
  mkNode id ty ih de sd li pr ex ch rt au ve si inh al df (Some v) ar ca bu
         ali chi fi su se bo.

Definition set_arguments (v : list Argument) (n : Node) : Node :=
  let 'mkNode id ty ih de sd li pr ex ch rt au ve si inh al df sg _ ca bu
              ali chi fi su se bo := n in
  mkNode id ty ih de sd li pr ex ch rt au ve si inh al df sg (Some v) ca bu
         ali chi fi su se bo.

Definition set_cancelable (v : bool) (n : Node) : Node :=
  let 'mkNode id ty ih de sd li pr ex ch rt au ve si inh al df sg ar _ bu
              ali chi fi su se bo := n in
  mkNode id ty ih de sd li pr ex ch rt au ve si inh al df sg ar (Some v) bu
         ali chi fi su se bo.

Definition set_bubbles (v : bool) (n : Node) : Node :=
  let 'mkNode id ty ih de sd li pr ex ch rt au ve si inh al df sg ar ca _
              ali chi fi su se bo := n in
  mkNode id ty ih de sd li pr ex ch rt au ve si inh al df sg ar ca (Some v)
         ali chi fi su se bo.

Definition set_aliases (v : list string) (n : Node) : Node :=
  let 'mkNode id ty ih de sd li pr ex ch rt au ve si inh al df sg ar ca bu
              _ chi fi su se bo := n in
  mkNode id ty ih de sd li pr ex ch rt au ve si inh al df sg ar ca bu
         (Some v) chi fi su se bo.

Definition set_children (v : list string) (n : Node) : Node :=
  let 'mkNode id ty ih de sd li pr ex ch rt au ve si inh al df sg ar ca bu
              ali _ fi su se bo := n in
  mkNode id ty ih de sd li pr ex ch rt au ve si inh al df sg ar ca bu
         ali (Some v) fi su se bo.

Definition set_file (v : string) (n : Node) : Node :=
  let 'mkNode id ty ih de sd li pr ex ch rt au ve si inh al df sg ar ca bu
              ali chi _ su se bo := n in
  mkNode id ty ih de sd li pr ex ch rt au ve si inh al df sg ar ca bu
         ali chi (Some v) su se bo.

Definition set_subclasses (v : list string) (n : Node) : Node :=
  let 'mkNode id ty ih de sd li pr ex ch rt au ve si inh al df sg ar ca bu
              ali chi fi _ se bo := n in
  mkNode id ty ih de sd li pr ex ch rt au ve si inh al df sg ar ca bu
         ali chi fi (Some v) se bo.

Definition set_bound (v : BoundVal) (n : Node) : Node :=
  let 'mkNode id ty ih de sd li pr ex ch rt au ve si inh al df sg ar ca bu
              ali chi fi su se _ := n in
  mkNode id ty ih de sd li pr ex ch rt au ve si inh al df sg ar ca bu
         ali chi fi su se (Some v).

(** [if (c) n.f = v]: an assignment under a guard. *)
Definition set_when {A} (v : option A) (f : A -> Node -> Node) (n : Node) : Node :=
  match v with
  | Some a => f a n
  | None => n
  end.

Record Options := { globalNS : option string }.

Inductive Warning :=
| WarnCommaTypes (memberName : string)
| WarnUnknownTag (tagname file : string).

(** How a run of the assembler ends. *)
Inductive Outcome (A : Type) :=
| Done (a : A)
| FatalName (d : Docset)
| Thrown.
Arguments Done {A} a.
Arguments FatalName {A} d.
Arguments Thrown {A}.

#[global] Instance Outcome_bind : MBind Outcome := fun A B k m =>
  match m with
  | Done a => k a
  | FatalName d => FatalName d
  | Thrown => Thrown
  end.

#[global] Instance Outcome_ret : MRet Outcome := fun A a => Done a.

(** ** The [nodes] object *)

(** Own properties in insertion order.  Writing the key ["__proto__"]
    replaces the prototype of the object and creates no own property;
    writing an existing key keeps its position. *)
Definition proto_key : string := "__proto__".

Fixpoint assoc_set (k : string) (v : Node) (o : list (string * Node))
  : list (string * Node) :=
  match o with
  | [] => [(k, v)]
  | (k', v') :: o' =>
      if String.eqb k' k then (k, v) :: o' else (k', v') :: assoc_set k v o'
  end.

Definition obj_set (k : string) (v : Node) (o : list (string * Node))
  : list (string * Node) :=
  if String.eqb k proto_key then o else assoc_set k v o.

Fixpoint obj_get (k : string) (o : list (string * Node)) : option Node :=
  match o with
  | [] => None
  | (k', v') :: o' => if String.eqb k' k then Some v' else obj_get k o'
  end.

(** The same write on the [list] object. *)
Definition obj_put (k : string) (v : Node) (l : gmap string Node)
  : gmap string Node :=
  if String.eqb k proto_key then l else <[k := v]> l.

(** The order in which [_.each(nodes, ...)] visits the own properties is
    the engine's; all the embedding relies on is that every own property is
    visited once. *)
Class Enumeration := {
  enumerate : list (string * Node) -> list (string * Node);
  enumerate_perm : forall o, Permutation (enumerate o) o;
}.

(** Insertion order. *)
#[local] Instance insertion_order : Enumeration :=
  {| enumerate := fun o => o; enumerate_perm := fun o => Permutation_refl o |}.

(** ** [createBasicTranslation] *)

(** The node that [createBasicTranslation] returns. *)
Definition basic_translation (memberName type : string) (i : Docset) : Node :=
  {|
    n_id := memberName;
    n_type := type;
    n_inheritdoc := inheritdoc_src <$> d_inheritdoc i;
    n_description := if d_inheritdoc i is Some _ then None else d_doc i;
    n_short_description :=
      if d_inheritdoc i is Some _ then None
      else short_description_of <$> d_doc i;
    n_line := d_linenr i;
    n_private := d_private i;
    n_experimental := d_experimental i;
    n_chainable := d_chainable i;
    n_related_to := see_name <$> d_see i;
    n_author :=
      match d_author i with
      | Some a => if 0 <? author_length a then author_doc a else None
      | None => None
      end;
    n_version := tag_doc <$> d_version i;
    n_since := tag_doc <$> d_since i;
    n_inherits := None;
    n_allowchild := None;
    n_define := None;
    n_signatures := None;
    n_arguments := None;
    n_cancelable := None;
    n_bubbles := None;
    n_aliases := None;
    n_children := None;
    n_file := None;
    n_subclasses := None;
    n_section := None;
    n_bound := None;
  |}.

(** Without [inheritdoc] the short description is computed from the
    description; on a docset that has neither, [undefined.replace] throws. *)
Definition createBasicTranslation (memberName type : string) (i : Docset)
  : Outcome Node :=
  match d_inheritdoc i, d_doc i with
  | None, None => Thrown
  | _, _ => Done (basic_translation memberName type i)
  end.

(** ** Assembler state *)

Record AsmState := {
  nodes : list (string * Node);
  classPrefix : option string;
  warnings : list Warning;
}.

Definition initial_state : AsmState :=
  {| nodes := []; classPrefix := None; warnings := [] |}.

(** ** First pass: the owning class *)

(** [i["tagname"] === "class" && i["doc"] !== undefined] *)
Definition is_class_docset (i : Docset) : bool :=
  String.eqb (d_tagname i) "class" && bool_decide (is_Some (d_doc i)).

Definition nonempty {A} (l : list A) : bool :=
  match l with [] => false | _ => true end.

(** The class node: the basic translation, then [inherits] (when the list
    is not empty), [allowchild] and [define]. *)
Definition complete_class (i : Docset) (n : Node) : Node :=
  let n := match d_inherits i with
           | Some l => if nonempty l then set_inherits l n else n
           | None => n
           end in
  let n := set_when (tag_doc <$> d_allowchild i) set_allowchild n in
  set_when (tag_doc <$> d_define i) set_define n.

Definition class_node (i : Docset) : Outcome Node :=
  n ← createBasicTranslation (d_name i) "class" i;
  mret (complete_class i n).

(** [_.reject(merged, function (i) { ... })]: the predicate runs on every
    docset in order, assigns [classPrefix] and [nodes[classPrefix]] for each
    class docset, and those docsets are left out of the result. *)
Fixpoint grab_class (merged : list Docset) (st : AsmState)
  : Outcome (list Docset * AsmState) :=
  match merged with
  | [] => mret ([], st)
  | i :: rest =>
      if is_class_docset i then
        n ← class_node i;
        grab_class rest
          {| nodes := obj_set (d_name i) n (nodes st);
             classPrefix := Some (d_name i);
             warnings := warnings st |}
      else
        r ← grab_class rest st;
        mret (i :: r.1, r.2)
  end.

(** ** Second pass: the filter *)

Definition keep_docset (i : Docset) : bool :=
  match d_doc i with
  | Some doc =>
      if negb (todo_marked doc) then true
      else bool_decide (is_Some (d_inheritdoc i))
  | None => bool_decide (is_Some (d_inheritdoc i))
  end.

Definition filter_docsets (l : list Docset) : list Docset :=
  List.filter keep_docset l.

(** ** Third pass: members *)

Definition is_event (i : Docset) : bool := String.eqb (d_tagname i) "event".

(** The class prefix after the fallback to [options.globalNS], and the join
    character. *)
Definition resolve_prefix (opts : Options) (cp : option string) (i : Docset)
  : option string * string :=
  let joinChar := if is_event i then "@" else "." in
  if bool_decide (cp = None) && JsString.truthy (globalNS opts)
  then (globalNS opts, joinChar)
  else if bool_decide (globalNS opts = None) then (cp, "")
  else (cp, joinChar).

Definition member_name (opts : Options) (cp : option string) (i : Docset)
  : string :=
  let '(cp', joinChar) := resolve_prefix opts cp i in
  JsString.join2 cp' (d_name i) joinChar.

(** [memberName.lastIndexOf(".") === memberName.length - 1] *)
Definition improper_name (memberName : string) : bool :=
  JsString.lastIndexOf "."%char memberName =? JsString.length memberName - 1.

(** The [types] of one argument, and whether the comma warning is
    printed. *)
Definition arg_types (type : string) : list string * bool :=
  if 0 <=? JsString.indexOf "|"%char type
  then (trim <$> JsString.split "|"%char type, false)
  else if 0 <=? JsString.indexOf ","%char type then ([], true)
  else ([type], false).

Definition translate_param (memberName : string) (p : Param)
  : Argument * list Warning :=
  let '(types, warn) := arg_types (p_type p) in
  ({| a_name := p_name p; a_description := p_doc p;
      a_types := types; a_optional := p_optional p |},
   if warn then [WarnCommaTypes memberName] else []).

Fixpoint translate_params (memberName : string) (ps : list Param)
  : list Argument * list Warning :=
  match ps with
  | [] => ([], [])
  | p :: ps' =>
      let '(a, w) := translate_param memberName p in
      let '(args, ws) := translate_params memberName ps' in
      (a :: args, (w ++ ws)%list)
  end.

Definition translate_return (r : option ReturnSpec) : ReturnRec :=
  match r with
  | None => {| r_type := None; r_isArray := None; r_description := None |}
  | Some r =>
      if JsString.indexOf "["%char (ret_type r) =? 0 then
        {| r_type := Some (JsString.substr 1
                             (JsString.length (ret_type r) - 2) (ret_type r));
           r_isArray := Some true;
           r_description := Some (ret_description r) |}
      else
        {| r_type := Some (ret_type r);
           r_isArray := None;
           r_description := Some (ret_description r) |}
  end.

(** [node.signatures.push(sig)] *)
Definition push_signature (sig : Signature) (n : Node) : Node :=
  set_signatures (default [] (n_signatures n) ++ [sig])%list n.

(** The method/event branch, after the basic translation: the signature
    list, the arguments (only when the docset has [params]), the one
    signature, and the event flags.  The local object [sig] of the source
    collects the same arguments and is never stored; the signature that is
    pushed takes [nodes[memberName]["arguments"]]. *)
Definition complete_member (memberName : string) (i : Docset) (n : Node)
  : Node * list Warning :=
  let n := set_signatures [] n in
  let '(n, ws) :=
    match d_params i with
    | Some ps =>
        let '(args, ws) := translate_params memberName ps in
        (set_arguments args n, ws)
    | None => (n, [])
    end in
  let ret := translate_return (d_return i) in
  let n := push_signature
             {| sig_arguments := n_arguments n;
                sig_return := Some ret;
                sig_returns := None |} n in
  let n := if is_event i
           then set_when (d_bubbles i) set_bubbles
                  (set_when (d_cancelable i) set_cancelable n)
           else n in
  (n, ws).

Definition member_node (memberName : string) (i : Docset)
  : Outcome (Node * list Warning) :=
  n ← createBasicTranslation memberName
        (if is_event i then "event" else "method") i;
  mret (complete_member memberName i n).

(** The property, attribute and binding branches: three branches of the
    same text, each with its own kind. *)
Definition synthetic_signature (i : Docset) : Signature :=
  {| sig_arguments := None;
     sig_return := None;
     sig_returns := Some [ {| tr_type := d_type i |} ] |}.

Definition value_node (memberName kind : string) (i : Docset) : Outcome Node :=
  n ← createBasicTranslation memberName kind i;
  mret (set_signatures [synthetic_signature i] n).

Definition is_value_kind (tagname : string) : bool :=
  String.eqb tagname "property" || String.eqb tagname "attribute"
  || String.eqb tagname "binding".

(** One call of the predicate of the third [_.reject]. *)
Definition member_step (opts : Options) (file : string) (st : AsmState)
  (i : Docset) : Outcome AsmState :=
  let '(cp, joinChar) := resolve_prefix opts (classPrefix st) i in
  let memberName := JsString.join2 cp (d_name i) joinChar in
  if improper_name memberName && bool_decide (d_inheritdoc i = None)
  then FatalName i
  else if String.eqb (d_tagname i) "method" || is_event i then
    r ← member_node memberName i;
    mret {| nodes := obj_set memberName r.1 (nodes st);
            classPrefix := cp;
            warnings := (warnings st ++ r.2)%list |}
  else if is_value_kind (d_tagname i) then
    n ← value_node memberName (d_tagname i) i;
    mret {| nodes := obj_set memberName n (nodes st);
            classPrefix := cp;
            warnings := warnings st |}
  else
    mret {| nodes := nodes st;
            classPrefix := cp;
            warnings :=
              (warnings st ++ [WarnUnknownTag (d_tagname i) file])%list |}.

Fixpoint members (opts : Options) (file : string) (l : list Docset)
  (st : AsmState) : Outcome AsmState :=
  match l with
  | [] => mret st
  | i :: rest =>
      st' ← member_step opts file st i;
      members opts file rest st'
  end.

(** ** Post-processing pass *)

(** [(node.section || '') + '.' + id] *)
Definition storage_key (section : option string) (id : string) : string :=
  (if JsString.truthy section then default "" section else "") +:+ "." +:+ id.

(** The hierarchy helpers and the source file of a node. *)
Definition stamp (file : string) (node : Node) : Node :=
  let node := set_file file (set_children [] (set_aliases [] node)) in
  if String.eqb "class" (n_type node) then set_subclasses [] node else node.

(** The body of [_.each(nodes, function (node, id) { ... })].  The [list]
    object holds references: the node stored first is the one whose [bound]
    is assigned afterwards, so the stored value carries the link. *)
Definition post_step (file : string) (l : gmap string Node) (node : Node)
  : gmap string Node :=
  let node := stamp file node in
  if String.eqb "section" (n_type node) then obj_put (n_id node) node l
  else
    let key := storage_key (n_section node) (n_id node) in
    if String.eqb "method" (n_type node) && bound_truthy (n_bound node) then
      let clone_id := bound_id (n_id node) in
      let clone := set_bound (BoundRef (n_id node)) (set_id clone_id node) in
      let node := set_bound (BoundRef clone_id) node in
      obj_put (storage_key (n_section node) clone_id) clone
        (obj_put key node l)
    else obj_put key node l.

Definition post_process (file : string) (ns : list Node) : gmap string Node :=
  fold_left (post_step file) ns ∅.

(** ** [process_jsd], from the merged docsets on

    The result is what the callback receives, together with the warnings
    printed on the way. *)
Definition process_jsd `{Enumeration} (merged : list Docset) (file : string)
  (opts : Options) : Outcome (gmap string Node * list Warning) :=
  r ← grab_class merged initial_state;
  let remainingNodes := filter_docsets r.1 in
  st ← members opts file remainingNodes r.2;
  mret (post_process file (snd <$> enumerate (nodes st)), warnings st).

(** * Vocabulary of the statements *)

(** ** Strings *)

(** The string holds the character: [s.indexOf(c) >= 0]. *)
Definition has_char (c : ascii) (s : string) : Prop :=
  In c (list_ascii_of_string s).

(** The string's last character is [c]. *)
Definition ends_with (c : ascii) (s : string) : Prop :=
  exists p, s = p +:+ String c EmptyString.

(** [n] spaces. *)
Fixpoint spaces (n : nat) : string :=
  match n with
  | O => EmptyString
  | S n' => String JsString.space (spaces n')
  end.

(** [l.join(c)] for a one-character separator. *)
Fixpoint join_with (c : ascii) (l : list string) : string :=
  match l with
  | [] => EmptyString
  | [s] => s
  | s :: l' => s +:+ String c (join_with c l')
  end.

(** A character that may stand inside the local name of an id: neither the
    separator nor a line terminator. *)
Definition name_char (c : ascii) : Prop :=
  c <> "."%char /\ JsString.is_line_terminator c = false.

(** The two parts of an id [owner.name]: the owner ends in a character
    that is not a line terminator, the name is not empty and holds neither
    a separator nor a line terminator. *)
Definition owner_part (owner : string) : Prop :=
  exists o e, owner = o +:+ String e "" /\ JsString.is_line_terminator e = false.

Definition name_part (name : string) : Prop :=
  name <> "" /\ Forall name_char (list_ascii_of_string name).

(** ** Docsets *)

(** The join character of a docset when no fallback applies. *)
Definition join_of (i : Docset) : string := if is_event i then "@" else ".".

(** A docset with a description or with [inheritdoc]: what the filter lets
    through. *)
Definition documented (i : Docset) : Prop :=
  is_Some (d_doc i) \/ is_Some (d_inheritdoc i).

(** The fatal test of one step of the members pass. *)
Definition fatal_name (opts : Options) (st : AsmState) (i : Docset) : bool :=
  improper_name (member_name opts (classPrefix st) i)
  && bool_decide (d_inheritdoc i = None).

(** A docset that the members pass can take under the class [cls]: it is
    documented, its name is proper, and when it is named [meth] it is not
    of a value kind. *)
Definition admissible (opts : Options) (cls meth : string) (d : Docset) : Prop :=
  documented d
  /\ improper_name (member_name opts (Some cls) d)
     && bool_decide (d_inheritdoc d = None) = false
  /\ (d_name d = meth -> is_value_kind (d_tagname d) = false).

(** ** Nodes *)

(** The [Signature] shape of the data model: an [arguments] list and a
    [return] record. *)
Definition Signature_shape (sig : Signature) : Prop :=
  is_Some (sig_arguments sig) /\ is_Some (sig_return sig).

(** The node of a class docset, and its write into [nodes]. *)
Definition class_translation (c : Docset) : Node :=
  complete_class c (basic_translation (d_name c) "class" c).

Definition put_class (o : list (string * Node)) (c : Docset)
  : list (string * Node) :=
  obj_set (d_name c) (class_translation c) o.

(** What the passes before post-processing put into [nodes]: the key is
    the id, and neither [bound] nor [section] is ever assigned. *)
Definition plain_node (k : string) (n : Node) : Prop :=
  n_id n = k /\ n_bound n = None /\ n_section n = None
  /\ n_type n <> "section".

Definition well_formed (o : list (string * Node)) : Prop :=
  NoDup (o.*1) /\ Forall (fun kn => plain_node kn.1 kn.2) o.

(** The state holds the class node, the node of the method [cls.meth]. *)
Definition has_class (cls : string) (st : AsmState) : Prop :=
  exists n, obj_get cls (nodes st) = Some n /\ n_type n = "class".

Definition has_method (cls meth : string) (st : AsmState) : Prop :=
  exists n, obj_get (cls +:+ "." +:+ meth) (nodes st) = Some n
            /\ n_type n = "method".

(** ** Samples *)

(** A docset with a tag, a name and a description, and nothing else. *)
Definition plain_docset (tagname name : string) (doc : option string) : Docset :=
  {| d_tagname := tagname; d_name := name; d_doc := doc; d_linenr := 1;
     d_type := None; d_params := None; d_return := None; d_inherits := None;
     d_inheritdoc := None; d_see := None; d_author := None;
     d_version := None; d_since := None; d_private := None;
     d_experimental := None; d_chainable := None; d_bound := None;
     d_allowchild := None; d_define := None; d_cancelable := None;
     d_bubbles := None |}.

(** A property-like docset with a [type]. *)
Definition value_docset (tagname name doc type : string) : Docset :=
  {| d_tagname := tagname; d_name := name; d_doc := Some doc; d_linenr := 1;
     d_type := Some type; d_params := None; d_return := None;
     d_inherits := None; d_inheritdoc := None; d_see := None;
     d_author := None; d_version := None; d_since := None;
     d_private := None; d_experimental := None; d_chainable := None;
     d_bound := None; d_allowchild := None; d_define := None;
     d_cancelable := None; d_bubbles := None |}.

(** A method docset with parameters and a return type. *)
Definition call_docset (tagname name doc : string) (ps : option (list Param))
  (r : option ReturnSpec) : Docset :=
  {| d_tagname := tagname; d_name := name; d_doc := Some doc; d_linenr := 1;
     d_type := None; d_params := ps; d_return := r;
     d_inherits := None; d_inheritdoc := None; d_see := None;
     d_author := None; d_version := None; d_since := None;
     d_private := None; d_experimental := None; d_chainable := None;
     d_bound := None; d_allowchild := None; d_define := None;
     d_cancelable := None; d_bubbles := None |}.

(** A method node as the post-processing pass may meet it, with a [bound]
    flag. *)
Definition bound_method (id : string) : Node :=
  set_bound (BoundFlag true)
    (basic_translation id "method" (plain_docset "method" id (Some "d"))).

(** ** The run as a whole *)

(** The string has a blank line: two newlines in a row. *)
Definition blank_line (s : string) : Prop :=
  exists p r,
    s = p +:+ String JsString.newline (String JsString.newline r).

(** A type string that takes the comma branch of the argument types. *)
Definition comma_only (p : Param) : bool :=
  negb (0 <=? JsString.indexOf "|"%char (p_type p))
  && (0 <=? JsString.indexOf ","%char (p_type p)).

(** The docsets that reach the members pass, and the class prefix that the
    first pass leaves. *)
Definition survivors (merged : list Docset) : list Docset :=
  filter_docsets (List.filter (fun i => negb (is_class_docset i)) merged).

Definition owning_prefix (merged : list Docset) : option string :=
  d_name <$> last (List.filter is_class_docset merged).

(** The fatal test of a docset under a given class prefix. *)
Definition fatal_docset (opts : Options) (cp : option string) (d : Docset)
  : bool :=
  improper_name (member_name opts cp d)
  && bool_decide (d_inheritdoc d = None).

(** The docset has one of the five member tags, so that the members pass
    writes a node for it. *)
Definition writes_node (d : Docset) : bool :=
  String.eqb (d_tagname d) "method" || is_event d
  || is_value_kind (d_tagname d).

(** The node that the members pass writes for such a docset under the
    name [memberName]. *)
Definition member_translation (memberName : string) (d : Docset) : Node :=
  if String.eqb (d_tagname d) "method" || is_event d then
    (complete_member memberName d
       (basic_translation memberName
          (if is_event d then "event" else "method") d)).1
  else
    set_signatures [synthetic_signature d]
      (basic_translation memberName (d_tagname d) d).

(** The node is the translation of the docset: the class node of a class
    docset with a description, or the member node of a documented docset
    with a member tag. *)
Definition built_from (d : Docset) (n : Node) : Prop :=
  (is_class_docset d = true /\ n = class_translation d)
  \/ (is_class_docset d = false /\ documented d /\ writes_node d = true
      /\ n = member_translation (n_id n) d).

(** The warnings that one step of the members pass prints for a docset
    named [memberName]. *)
Definition step_warnings (file memberName : string) (d : Docset)
  : list Warning :=
  if String.eqb (d_tagname d) "method" || is_event d then
    match d_params d with
    | Some ps => (translate_params memberName ps).2
    | None => []
    end
  else if is_value_kind (d_tagname d) then []
  else [WarnUnknownTag (d_tagname d) file].

(** What post-processing leaves on every node it stores. *)
Definition stamped (file : string) (n : Node) : Prop :=
  n_file n = Some file /\ n_aliases n = Some [] /\ n_children n = Some [].




(** * Properties *)

(** ** Strings *)

Section StringFacts.

Local Open Scope char_scope.




End StringFacts.

(** Equations of string concatenation. *)
Lemma append_nil_l (t : string) : "" +:+ t = t.
Proof. reflexivity. Qed.

Lemma append_cons (a : ascii) (s t : string) :
  String a s +:+ t = String a (s +:+ t).
Proof. reflexivity. Qed.

Lemma append_empty_r (s : string) : s +:+ "" = s.
Proof.
  induction s as [|a s IH]; [reflexivity|].
  now rewrite append_cons, IH.
Qed.

Lemma append_assoc (s t u : string) : (s +:+ t) +:+ u = s +:+ t +:+ u.
Proof.
  induction s as [|a s IH]; [reflexivity|].
  now rewrite !append_cons, IH.
Qed.

Lemma ends_with_cons (c a : ascii) (s : string) :
  ends_with c (String a s) <-> (s = "" /\ a = c) \/ ends_with c s.
Proof.
  split.
  - intros [[|b p] E]; simpl in E; injection E as -> ->; [now left | right].
    now exists p.
  - intros [[-> ->] | [p ->]]; [now exists "" | now exists (String a p)].
Qed.

(** ** The filter *)

Lemma keep_docset_spec (i : Docset) :
  keep_docset i = true <->
  (exists doc, d_doc i = Some doc /\ todo_marked doc = false)
  \/ is_Some (d_inheritdoc i).
Proof.
  unfold keep_docset.
  destruct (d_doc i) as [doc|].
  - destruct (todo_marked doc) eqn:E; simpl.
    + rewrite bool_decide_eq_true. split; [auto|].
      intros [(doc' & [= <-] & H) | H]; [congruence | exact H].
    + split; [eauto | reflexivity].
  - rewrite bool_decide_eq_true. split; [auto|].
    intros [(doc' & [=] & _) | H]; exact H.
Qed.


(** ** Return types *)

Lemma substring_prefix (s t : string) :
  String.substring 0 (String.length s) (s +:+ t) = s.
Proof.
  induction s as [|a s IH]; simpl.
  - destruct t; reflexivity.
  - now rewrite IH.
Qed.

Lemma length_append (s t : string) :
  String.length (s +:+ t) = (String.length s + String.length t)%nat.
Proof. induction s as [|a s IH]; simpl; [reflexivity | now rewrite IH]. Qed.

Lemma substr_brackets (s : string) :
  let ty := "[" +:+ s +:+ "]" in
  JsString.substr 1 (JsString.length ty - 2) ty = s.
Proof.
  intros ty. unfold JsString.substr, JsString.length.
  assert (L : String.length ty = S (String.length s + 1)).
  { unfold ty. change ("[" +:+ s +:+ "]") with (String "["%char (s +:+ "]")).
    cbn [String.length]. now rewrite length_append. }
  rewrite L.
  replace (Z.to_nat _) with (String.length s) by lia.
  apply (substring_prefix s "]").
Qed.

Lemma not_bracketed (t : string) :
  (forall s, t <> String "["%char s) ->
  (JsString.indexOf "["%char t =? 0) = false.
Proof.
  intros H. destruct t as [|a t]; [reflexivity|].
  unfold JsString.indexOf. simpl.
  destruct (Ascii.eqb a "[") eqn:E.
  - apply Ascii.eqb_eq in E. subst a. now destruct (H t).
  - apply Z.eqb_neq.
    assert (G : forall u i, 0 < i -> JsString.indexOf_from "["%char u i <> 0).
    { induction u as [|b u IH]; simpl; intros i Hi; [lia|].
      destruct (Ascii.eqb b "["); [lia | apply IH; lia]. }
    apply G. lia.
Qed.

(** C7 (as the code has it). A return type that starts with ["["] loses its
    first and its last character and gets [isArray = true], so ["[" s "]"]
    becomes [s]; a return type that does not start with ["["] is kept as it
    is and no [isArray] is set. *)
Theorem return_array_brackets (r : ReturnSpec) :
  (forall s, ret_type r = "[" +:+ s +:+ "]" ->
     translate_return (Some r) =
     {| r_type := Some s; r_isArray := Some true;
        r_description := Some (ret_description r) |})
  /\ (forall s, ret_type r = String "["%char s ->
        translate_return (Some r) =
        {| r_type := Some (String.substring 0 (String.length s - 1) s);
           r_isArray := Some true;
           r_description := Some (ret_description r) |})
  /\ ((forall s, ret_type r <> String "["%char s) ->
        translate_return (Some r) =
        {| r_type := Some (ret_type r); r_isArray := None;
           r_description := Some (ret_description r) |}).
Proof.
  split; [|split].
  - intros s E. unfold translate_return. rewrite E.
    change (JsString.indexOf "["%char ("[" +:+ s +:+ "]") =? 0) with true.
    cbv iota. now rewrite substr_brackets.
  - intros s E. unfold translate_return. rewrite E.
    change (JsString.indexOf "["%char (String "["%char s) =? 0) with true.
    cbv iota. do 2 f_equal.
    unfold JsString.substr, JsString.length. cbn [String.length].
    replace (Z.to_nat _) with (String.length s - 1)%nat by lia.
    reflexivity.
  - intros H. unfold translate_return. now rewrite (not_bracketed _ H).
Qed.

(** The sample of the design document. *)
Example return_array_of_string :
  translate_return (Some {| ret_type := "[string]"; ret_description := "" |})
  = {| r_type := Some "string"; r_isArray := Some true;
       r_description := Some "" |}.
Proof. reflexivity. Qed.

(** C7, the claim as stated fails: ["[string"] is not of the bracketed
    shape, yet it is not kept verbatim: it loses both end characters and is
    flagged as an array. *)
Lemma return_open_bracket_is_stripped :
  let r := {| ret_type := "[string"; ret_description := "d" |} in
  (forall s, ret_type r <> "[" +:+ s +:+ "]")
  /\ translate_return (Some r) =
     {| r_type := Some "strin"; r_isArray := Some true;
        r_description := Some "d" |}.
Proof.
  split; [|reflexivity].
  intros s H. simpl in H. injection H as H.
  do 6 (destruct s as [|? s]; [discriminate H | injection H as _ H]).
  destruct s; discriminate H.
Qed.

(** ** Argument types *)

Lemma indexOf_from_spec (c : ascii) (s : string) (i : Z) :
  0 <= i ->
  (has_char c s -> i <= JsString.indexOf_from c s i)
  /\ (~ has_char c s -> JsString.indexOf_from c s i = -1).
Proof.
  unfold has_char. revert i.
  induction s as [|a s IH]; intros i Hi; simpl.
  - split; [intros [] | reflexivity].
  - destruct (Ascii.eqb a c) eqn:E.
    + apply Ascii.eqb_eq in E. split; [lia | intros H; destruct H; auto].
    + apply Ascii.eqb_neq in E.
      destruct (IH (i + 1)) as [H1 H2]; [lia|].
      split.
      * intros [H | H]; [contradiction | specialize (H1 H); lia].
      * intros H. apply H2. intros H'. apply H. now right.
Qed.

Lemma indexOf_nonneg (c : ascii) (s : string) :
  (0 <=? JsString.indexOf c s) = true <-> has_char c s.
Proof.
  unfold JsString.indexOf.
  destruct (indexOf_from_spec c s 0) as [H1 H2]; [lia|].
  rewrite Z.leb_le. split.
  - intros H. destruct (in_dec ascii_dec c (list_ascii_of_string s)) as [Hc | Hc];
      [exact Hc | rewrite (H2 Hc) in H; lia].
  - exact H1.
Qed.

Lemma indexOf_negative (c : ascii) (s : string) :
  (0 <=? JsString.indexOf c s) = false <-> ~ has_char c s.
Proof.
  rewrite <- indexOf_nonneg. destruct (0 <=? JsString.indexOf c s); split;
    intros H; try reflexivity; try discriminate; now destruct H.
Qed.

(** One segment more than there are separators. *)
Lemma split_length (c : ascii) (s : string) :
  length (JsString.split c s)
  = S (count_occ ascii_dec (list_ascii_of_string s) c).
Proof.
  induction s as [|a s IH]; [reflexivity|].
  simpl. destruct (Ascii.eqb a c) eqn:E.
  - apply Ascii.eqb_eq in E. subst a.
    destruct (ascii_dec c c); [|contradiction]. simpl. now rewrite IH.
  - apply Ascii.eqb_neq in E.
    destruct (ascii_dec a c); [contradiction|].
    rewrite <- IH. now destruct (JsString.split c s).
Qed.

(** Splitting loses nothing, and no segment holds the separator. *)
Lemma split_join (c : ascii) (s : string) :
  join_with c (JsString.split c s) = s.
Proof.
  induction s as [|a s IH]; [reflexivity|].
  cbn [JsString.split]. destruct (Ascii.eqb a c) eqn:E.
  - apply Ascii.eqb_eq in E. subst a.
    pose proof (split_length c s) as L.
    cbn [join_with]. destruct (JsString.split c s) as [|seg segs];
      [discriminate L|].
    now rewrite IH.
  - pose proof (split_length c s) as L.
    destruct (JsString.split c s) as [|seg segs]; [discriminate L|].
    cbn [join_with] in *. destruct segs as [|seg' segs].
    + now rewrite IH.
    + now rewrite append_cons, IH.
Qed.

Lemma split_segments (c : ascii) (s : string) :
  Forall (fun seg => ~ has_char c seg) (JsString.split c s).
Proof.
  induction s as [|a s IH]; [constructor; [intros [] | constructor]|].
  cbn [JsString.split]. destruct (Ascii.eqb a c) eqn:E.
  - constructor; [intros [] | exact IH].
  - apply Ascii.eqb_neq in E.
    destruct (JsString.split c s) as [|seg segs].
    + constructor; [|constructor]. intros [H | []]. contradiction.
    + apply Forall_cons in IH as [H1 H2]. constructor; [|exact H2].
      intros [H | H]; [contradiction | now apply H1].
Qed.

(** [trim] removes a run of spaces at each end, and what it returns has a
    space at neither end. *)
Lemma drop_spaces_spec (s : string) :
  (exists n, s = spaces n +:+ drop_spaces s)
  /\ forall t, drop_spaces s <> String JsString.space t.
Proof.
  induction s as [|a s [[n IH1] IH2]].
  - split; [now exists O | discriminate].
  - cbn [drop_spaces]. destruct (Ascii.eqb a JsString.space) eqn:E.
    + apply Ascii.eqb_eq in E. subst a. split; [|exact IH2].
      exists (S n). cbn [spaces]. now rewrite append_cons, <- IH1.
    + apply Ascii.eqb_neq in E. split; [now exists O|].
      intros t [= H _]. contradiction.
Qed.

Lemma drop_trailing_spaces_spec (s : string) :
  (exists m, s = drop_trailing_spaces s +:+ spaces m)
  /\ ~ ends_with JsString.space (drop_trailing_spaces s)
  /\ forall a t, s = String a t -> a <> JsString.space ->
       exists t', drop_trailing_spaces s = String a t'.
Proof.
  induction s as [|a s ([m IH1] & IH2 & _)].
  - split; [now exists O|]. split; [|discriminate].
    intros [[|b p] E]; discriminate E.
  - cbn [drop_trailing_spaces].
    destruct (drop_trailing_spaces s) as [|b r] eqn:Er.
    + destruct (Ascii.eqb a JsString.space) eqn:E.
      * apply Ascii.eqb_eq in E. subst a.
        split; [exists (S m); cbn [spaces]; now rewrite IH1 at 1|].
        split; [intros [[|b p] E]; discriminate E|].
        intros a t [= <- _] H. contradiction.
      * apply Ascii.eqb_neq in E.
        split; [exists m; now rewrite append_cons, append_nil_l, IH1 at 1|].
        split; [|intros a' t [= <- _] _; eauto].
        intros [[_ H] | H]%ends_with_cons; [contradiction|].
        destruct H as [[|b p] H]; discriminate H.
    + split; [exists m; now rewrite append_cons, <- IH1|].
      split; [|intros a' t [= <- _] _; eauto].
      intros [[H _] | H]%ends_with_cons; [discriminate H | contradiction].
Qed.

Lemma trim_spec (s : string) :
  (exists n m, s = spaces n +:+ trim s +:+ spaces m)
  /\ (forall t, trim s <> String JsString.space t)
  /\ ~ ends_with JsString.space (trim s).
Proof.
  unfold trim.
  destruct (drop_spaces_spec s) as [[n Hn] Hlead].
  destruct (drop_trailing_spaces_spec (drop_spaces s)) as ([m Hm] & Hend & Hfirst).
  split; [exists n, m; now rewrite <- Hm|].
  split; [|exact Hend].
  intros t E.
  destruct (drop_spaces s) as [|a u] eqn:Eu; [discriminate E|].
  destruct (ascii_dec a JsString.space) as [-> | Ha]; [now destruct (Hlead u)|].
  destruct (Hfirst a u eq_refl Ha) as [t' Ht'].
  rewrite Ht' in E. injection E as E _. contradiction.
Qed.

(** C6 (as the code has it). A type string with a ["|"] gives one trimmed
    entry per ["|"]-segment and no warning; a type string with a [","] and
    no ["|"] gives the warning and an empty [types] list; any other type
    string is the single entry.  So the list has at least one entry exactly
    when the string has a ["|"] or no [","]. *)
Theorem argument_types (memberName : string) (p : Param) :
  let a := (translate_param memberName p).1 in
  let ws := (translate_param memberName p).2 in
  let ty := p_type p in
  (has_char "|" ty ->
     a_types a = trim <$> JsString.split "|" ty
     /\ length (a_types a)
        = S (count_occ ascii_dec (list_ascii_of_string ty) "|"%char)
     /\ ws = [])
  /\ (~ has_char "|" ty -> has_char "," ty ->
        a_types a = [] /\ ws = [WarnCommaTypes memberName])
  /\ (~ has_char "|" ty -> ~ has_char "," ty ->
        a_types a = [ty] /\ ws = [])
  /\ ((1 <= length (a_types a))%nat <-> has_char "|" ty \/ ~ has_char "," ty)
  /\ a_name a = p_name p /\ a_description a = p_doc p
  /\ a_optional a = p_optional p.
Proof.
  unfold translate_param, arg_types.
  destruct (0 <=? JsString.indexOf "|" (p_type p)) eqn:Ep;
    [apply indexOf_nonneg in Ep | apply indexOf_negative in Ep];
    (destruct (0 <=? JsString.indexOf "," (p_type p)) eqn:Ec;
      [apply indexOf_nonneg in Ec | apply indexOf_negative in Ec]);
    cbn -[JsString.split];
    rewrite ?length_fmap, ?split_length;
    repeat split; intros; try tauto; try lia; simpl in *; try lia.
Qed.

(** The samples of the design document. *)
Example types_string_or_number :
  arg_types "string|number" = (["string"; "number"], false)
  /\ arg_types " string | number " = (["string"; "number"], false).
Proof. split; reflexivity. Qed.

(** C6, the claim as stated fails: for ["string,number"] the warning is
    printed and the [types] list stays empty; there is no compound
    entry. *)
Lemma comma_types_are_dropped :
  translate_param "Foo.bar"
    {| p_name := "x"; p_doc := "d"; p_type := "string,number";
       p_optional := false |}
  = ({| a_name := "x"; a_description := "d"; a_types := [];
        a_optional := false |},
     [WarnCommaTypes "Foo.bar"]).
Proof. reflexivity. Qed.

(** ** Name resolution *)

Lemma lastIndexOf_from_end (c : ascii) (s : string) (i acc : Z) :
  acc < i ->
  JsString.lastIndexOf_from c s i acc = i + JsString.length s - 1
  <-> (s = "" /\ acc = i - 1) \/ ends_with c s.
Proof.
  unfold JsString.length. revert i acc.
  induction s as [|a s IH]; intros i acc Hacc.
  - simpl. split.
    + intros H. left. split; [reflexivity | lia].
    + intros [[_ H] | [[|b p] E]]; [lia | discriminate E | discriminate E].
  - cbn [JsString.lastIndexOf_from String.length].
    rewrite ends_with_cons.
    replace (i + Z.of_nat (S (String.length s)) - 1)
      with ((i + 1) + Z.of_nat (String.length s) - 1) by lia.
    destruct (Ascii.eqb a c) eqn:E.
    + apply Ascii.eqb_eq in E. rewrite IH by lia.
      split.
      * intros [[-> _] | H]; right; [now left | now right].
      * intros [[H _] | [[-> _] | H]]; [discriminate H | left | now right].
        split; [reflexivity | lia].
    + apply Ascii.eqb_neq in E. rewrite IH by lia.
      split.
      * intros [[_ H] | H]; [lia | right; now right].
      * intros [[H _] | [[_ H] | H]];
          [discriminate H | contradiction | now right].
Qed.

(** The name check fires on the empty name and on names whose last
    character is ["."]. *)
Lemma improper_name_spec (s : string) :
  improper_name s = true <-> s = "" \/ ends_with "." s.
Proof.
  unfold improper_name, JsString.lastIndexOf.
  rewrite Z.eqb_eq.
  pose proof (lastIndexOf_from_end "." s 0 (-1) ltac:(lia)) as H.
  rewrite Z.add_0_l in H. rewrite H. intuition.
Qed.

(** Every case of the prefix and join-character rule. *)
Lemma resolve_prefix_cases (opts : Options) (cp : option string) (i : Docset) :
  resolve_prefix opts cp i =
  match cp, globalNS opts with
  | Some c, Some _ => (Some c, join_of i)
  | Some c, None => (Some c, "")
  | None, Some g => if String.eqb g "" then (None, join_of i)
                    else (Some g, join_of i)
  | None, None => (None, "")
  end.
Proof.
  unfold resolve_prefix, join_of, JsString.truthy.
  destruct cp as [c|], (globalNS opts) as [g|]; simpl; try reflexivity.
  now destruct (String.eqb g "").
Qed.

(** C5 (as the code has it). With [options.globalNS] defined, the id is
    prefix, join character and name, where the join character is ["@"] for
    an event docset and ["."] for any other, and the prefix is the owning
    class or, without one, a non-empty [globalNS]; so the event ["change"]
    under class ["Foo"] gets ["Foo@change"].  Without a class prefix and
    with [globalNS] undefined the join character is the empty string and
    the id is the bare name. *)
Theorem join_character (opts : Options) (cp : option string) (i : Docset) :
  (forall c g, cp = Some c -> globalNS opts = Some g ->
     resolve_prefix opts cp i = (Some c, if is_event i then "@" else ".")
     /\ member_name opts cp i
        = c +:+ (if is_event i then "@" else ".") +:+ d_name i)
  /\ (forall g, cp = None -> globalNS opts = Some g -> g <> "" ->
        resolve_prefix opts cp i = (Some g, if is_event i then "@" else ".")
        /\ member_name opts cp i
           = g +:+ (if is_event i then "@" else ".") +:+ d_name i)
  /\ (cp = None -> globalNS opts = None ->
        resolve_prefix opts cp i = (None, "")
        /\ member_name opts cp i = d_name i)
  /\ (forall g, globalNS opts = Some g -> d_tagname i = "event" ->
        d_name i = "change" -> cp = Some "Foo" ->
        member_name opts cp i = "Foo@change").
Proof.
  unfold member_name. rewrite resolve_prefix_cases. unfold join_of.
  split; [|split; [|split]].
  - intros c g -> ->. split; reflexivity.
  - intros g -> -> Hg.
    destruct (String.eqb g "") eqn:E;
      [apply String.eqb_eq in E; contradiction|].
    split; reflexivity.
  - intros -> ->. split; reflexivity.
  - intros g -> Ht Hn ->. unfold is_event. rewrite Ht, Hn. reflexivity.
Qed.

(** C5, the claim as stated fails: with [options.globalNS] undefined the
    join character is the empty string also under an owning class, and the
    event ["change"] of class ["Foo"] gets the id ["Foochange"]; and an
    event that falls back to [globalNS] is joined to it by ["@"], not by
    ["."]. *)
Lemma event_join_without_globalNS :
  member_name {| globalNS := None |} (Some "Foo")
    (plain_docset "event" "change" (Some "d")) = "Foochange"
  /\ member_name {| globalNS := Some "NS" |} None
       (plain_docset "event" "change" (Some "d")) = "NS@change"
  /\ exists m ws,
       @process_jsd insertion_order
         [plain_docset "class" "Foo" (Some "c");
          plain_docset "event" "change" (Some "d")]
         "f.js" {| globalNS := None |} = Done (m, ws)
       /\ (n_id <$> m !! ".Foochange") = Some "Foochange"
       /\ (n_type <$> m !! ".Foochange") = Some "event"
       /\ m !! ".Foo@change" = None.
Proof.
  split; [reflexivity|]. split; [reflexivity|].
  eexists _, _. split; [reflexivity|].
  repeat split; vm_compute; reflexivity.
Qed.

(** ** The members pass, one docset at a time *)

Lemma keep_docset_documented (i : Docset) :
  keep_docset i = true -> documented i.
Proof.
  intros [(doc & E & _) | H]%keep_docset_spec; [left | now right].
  rewrite E. eauto.
Qed.

Lemma createBasicTranslation_documented (memberName type : string) (i : Docset) :
  documented i ->
  createBasicTranslation memberName type i
  = Done (basic_translation memberName type i).
Proof.
  unfold createBasicTranslation.
  intros [[x E] | [x E]]; rewrite E; [destruct (d_inheritdoc i)|]; reflexivity.
Qed.

Lemma createBasicTranslation_not_fatal (memberName type : string) (i d : Docset) :
  createBasicTranslation memberName type i <> FatalName d.
Proof.
  unfold createBasicTranslation.
  destruct (d_inheritdoc i), (d_doc i); discriminate.
Qed.

Lemma member_step_unfold (opts : Options) (file : string) (st : AsmState)
  (i : Docset) :
  let memberName := member_name opts (classPrefix st) i in
  let cp := (resolve_prefix opts (classPrefix st) i).1 in
  member_step opts file st i =
  if fatal_name opts st i then FatalName i
  else if String.eqb (d_tagname i) "method" || is_event i then
    r ← member_node memberName i;
    mret {| nodes := obj_set memberName r.1 (nodes st);
            classPrefix := cp;
            warnings := (warnings st ++ r.2)%list |}
  else if is_value_kind (d_tagname i) then
    n ← value_node memberName (d_tagname i) i;
    mret {| nodes := obj_set memberName n (nodes st);
            classPrefix := cp;
            warnings := warnings st |}
  else
    mret {| nodes := nodes st;
            classPrefix := cp;
            warnings :=
              (warnings st ++ [WarnUnknownTag (d_tagname i) file])%list |}.
Proof.
  unfold member_step, fatal_name, member_name.
  destruct (resolve_prefix opts (classPrefix st) i) as [cp j]. reflexivity.
Qed.

(** A documented docset with a proper name always yields a state. *)
Lemma member_step_documented (opts : Options) (file : string) (st : AsmState)
  (i : Docset) :
  documented i -> fatal_name opts st i = false ->
  let memberName := member_name opts (classPrefix st) i in
  let cp := (resolve_prefix opts (classPrefix st) i).1 in
  member_step opts file st i =
  Done
    (if String.eqb (d_tagname i) "method" || is_event i then
       let r := complete_member memberName i
                  (basic_translation memberName
                     (if is_event i then "event" else "method") i) in
       {| nodes := obj_set memberName r.1 (nodes st);
          classPrefix := cp;
          warnings := (warnings st ++ r.2)%list |}
     else if is_value_kind (d_tagname i) then
       {| nodes := obj_set memberName
                     (set_signatures [synthetic_signature i]
                        (basic_translation memberName (d_tagname i) i))
                     (nodes st);
          classPrefix := cp;
          warnings := warnings st |}
     else
       {| nodes := nodes st;
          classPrefix := cp;
          warnings :=
            (warnings st ++ [WarnUnknownTag (d_tagname i) file])%list |}).
Proof.
  intros Hd Hf. cbv zeta. rewrite member_step_unfold, Hf.
  unfold member_node, value_node.
  rewrite !createBasicTranslation_documented by exact Hd.
  destruct (String.eqb (d_tagname i) "method" || is_event i);
    [reflexivity|].
  destruct (is_value_kind (d_tagname i)); reflexivity.
Qed.

(** ** The fatal naming path *)

Lemma members_app (opts : Options) (file : string) (l1 l2 : list Docset)
  (st : AsmState) :
  members opts file (l1 ++ l2)%list st
  = (members opts file l1 st ≫= members opts file l2).
Proof.
  revert st. induction l1 as [|i l1 IH]; intros st; [reflexivity|].
  cbn [members app]. destruct (member_step opts file st i); try reflexivity.
  apply IH.
Qed.

Lemma member_step_fatal_iff (opts : Options) (file : string) (st : AsmState)
  (i d : Docset) :
  member_step opts file st i = FatalName d
  <-> d = i /\ fatal_name opts st i = true.
Proof.
  rewrite member_step_unfold. cbv zeta.
  destruct (fatal_name opts st i).
  - split; [intros [= <-]; auto | intros [-> _]; reflexivity].
  - split; [|intros [_ [=]]].
    unfold member_node, value_node.
    destruct (String.eqb (d_tagname i) "method" || is_event i).
    + pose proof (createBasicTranslation_not_fatal
        (member_name opts (classPrefix st) i)
        (if is_event i then "event" else "method") i d) as H.
      destruct (createBasicTranslation _ _ i); cbn; try discriminate.
      intros [= E]. destruct H. now rewrite E.
    + destruct (is_value_kind (d_tagname i)); [|discriminate].
      pose proof (createBasicTranslation_not_fatal
        (member_name opts (classPrefix st) i) (d_tagname i) i d) as H.
      destruct (createBasicTranslation _ _ i); cbn; try discriminate.
      intros [= E]. destruct H. now rewrite E.
Qed.

(** C2 (as the code has it). The fatal path is taken exactly when the
    computed name is empty or its last character is ["."], and the docset
    has no [inheritdoc]; so it is taken for a docset other than an event
    whose local name is empty and is joined by ["."].  It reports the
    docset and nothing after it is processed.  With [inheritdoc] the path
    is not taken and processing goes on with the next docset. *)
Theorem fatal_naming (opts : Options) (file : string) (st : AsmState)
  (i : Docset) :
  let name := member_name opts (classPrefix st) i in
  ((name = "" \/ ends_with "." name) -> d_inheritdoc i = None ->
     member_step opts file st i = FatalName i)
  /\ (forall g, globalNS opts = Some g -> is_event i = false ->
        d_name i = "" -> d_inheritdoc i = None ->
        ends_with "." name /\ member_step opts file st i = FatalName i)
  /\ (forall d, member_step opts file st i = FatalName d ->
        d = i /\ (name = "" \/ ends_with "." name) /\ d_inheritdoc i = None)
  /\ (forall l1 l2 st0,
        members opts file l1 st0 = Done st ->
        member_step opts file st i = FatalName i ->
        members opts file (l1 ++ i :: l2)%list st0 = FatalName i)
  /\ (is_Some (d_inheritdoc i) ->
        exists st', member_step opts file st i = Done st'
          /\ forall rest, members opts file (i :: rest) st
                          = members opts file rest st').
Proof.
  intros name.
  assert (Hfatal : (name = "" \/ ends_with "." name) -> d_inheritdoc i = None ->
                   member_step opts file st i = FatalName i).
  { intros Hn Hi. apply member_step_fatal_iff. split; [reflexivity|].
    unfold fatal_name. fold name.
    apply improper_name_spec in Hn. rewrite Hn, Hi. reflexivity. }
  split; [exact Hfatal|].
  split.
  { intros g Hg He Hn Hi.
    assert (E : ends_with "." name).
    { unfold name, member_name. rewrite resolve_prefix_cases, Hg, Hn.
      unfold join_of. rewrite He.
      destruct (classPrefix st) as [c|]; [|destruct (String.eqb g "")];
        unfold JsString.join2, ends_with; simpl default; eauto. }
    split; [exact E | apply Hfatal; auto]. }
  split.
  { intros d [-> Hf]%member_step_fatal_iff.
    unfold fatal_name in Hf. fold name in Hf.
    apply andb_true_iff in Hf as [Hn Hi].
    apply improper_name_spec in Hn. apply bool_decide_eq_true in Hi. auto. }
  split.
  { intros l1 l2 st0 H1 H2. rewrite members_app, H1.
    cbn. rewrite H2. reflexivity. }
  intros Hi.
  assert (Hf : fatal_name opts st i = false).
  { unfold fatal_name. destruct Hi as [x Hx]. rewrite Hx.
    apply andb_false_r. }
  rewrite (member_step_documented opts file st i (or_intror Hi) Hf).
  eexists. split; [reflexivity|].
  intros rest. cbn [members].
  rewrite (member_step_documented opts file st i (or_intror Hi) Hf).
  reflexivity.
Qed.

(** Two runs of the whole assembler: a method with an empty name under
    class ["Foo"] stops it, and the callback is not called; the same method
    with [inheritdoc] is translated. *)
Example fatal_naming_sample :
  let c := plain_docset "class" "Foo" (Some "A class.") in
  let m := plain_docset "method" "" (Some "A method.") in
  let m' := {| d_tagname := "method"; d_name := ""; d_doc := None;
               d_linenr := 7; d_type := None; d_params := None;
               d_return := None; d_inherits := None;
               d_inheritdoc := Some {| inheritdoc_src := "Base.run" |};
               d_see := None; d_author := None; d_version := None;
               d_since := None; d_private := None; d_experimental := None;
               d_chainable := None; d_bound := None; d_allowchild := None;
               d_define := None; d_cancelable := None; d_bubbles := None |} in
  @process_jsd insertion_order [c; m] "f.js" {| globalNS := Some "NS" |}
  = FatalName m
  /\ exists result ws,
       @process_jsd insertion_order [c; m'] "f.js" {| globalNS := Some "NS" |}
       = Done (result, ws)
       /\ (n_inheritdoc <$> result !! ".Foo.") = Some (Some "Base.run").
Proof.
  split; [reflexivity|].
  eexists _, _. split; [reflexivity | vm_compute; reflexivity].
Qed.

(** C2, the claim as stated fails for events: the event with an empty
    local name under class ["Foo"] gets the name ["Foo@"], which ends at
    its join character, it has no [inheritdoc], and it is translated like
    any other event. *)
Lemma event_empty_name_is_not_fatal :
  let i := plain_docset "event" "" (Some "d") in
  let opts := {| globalNS := Some "NS" |} in
  let st := {| nodes := []; classPrefix := Some "Foo"; warnings := [] |} in
  member_name opts (classPrefix st) i = "Foo@"
  /\ d_inheritdoc i = None
  /\ (exists st', member_step opts "f.js" st i = Done st'
        /\ (n_type <$> obj_get "Foo@" (nodes st')) = Some "event")
  /\ exists m ws,
       @process_jsd insertion_order [plain_docset "class" "Foo" (Some "c"); i]
         "f.js" opts = Done (m, ws)
       /\ (n_id <$> m !! ".Foo@") = Some "Foo@".
Proof.
  repeat split.
  - eexists. split; reflexivity.
  - eexists _, _. split; [reflexivity | vm_compute; reflexivity].
Qed.

(** ** Signatures of members and of value kinds *)

Lemma value_kind_cases (t : string) :
  t = "property" \/ t = "attribute" \/ t = "binding" ->
  (String.eqb t "method" || String.eqb t "event") = false
  /\ is_value_kind t = true.
Proof. intros [-> | [-> | ->]]; split; reflexivity. Qed.

(** C9 (as the code has it). A property, attribute or binding docset that
    reaches translation gives a node with exactly one signature; that
    signature has no [arguments] and no [return] record: it carries the
    docset's [type] in a one-element [returns] list. *)
Theorem value_kinds_have_synthetic_signature (opts : Options) (file : string)
  (st : AsmState) (i : Docset) :
  d_tagname i = "property" \/ d_tagname i = "attribute"
  \/ d_tagname i = "binding" ->
  documented i ->
  fatal_name opts st i = false ->
  let name := member_name opts (classPrefix st) i in
  exists n st',
    member_step opts file st i = Done st'
    /\ nodes st' = obj_set name n (nodes st)
    /\ warnings st' = warnings st
    /\ n_id n = name /\ n_type n = d_tagname i
    /\ n_signatures n =
       Some [ {| sig_arguments := None; sig_return := None;
                 sig_returns := Some [ {| tr_type := d_type i |} ] |} ]
    /\ n_arguments n = None.
Proof.
  intros Ht Hd Hf name.
  destruct (value_kind_cases _ Ht) as [H1 H2].
  eexists _, _. split.
  - rewrite (member_step_documented opts file st i Hd Hf).
    unfold is_event. rewrite H1, H2. reflexivity.
  - repeat split.
Qed.

Lemma value_kinds_have_synthetic_signature_witness :
  let i := value_docset "property" "size" "The size." "Number" in
  let opts := {| globalNS := Some "NS" |} in
  let st := {| nodes := []; classPrefix := Some "Foo"; warnings := [] |} in
  exists n st',
    member_step opts "f.js" st i = Done st'
    /\ nodes st' = obj_set "Foo.size" n (nodes st)
    /\ warnings st' = warnings st
    /\ n_id n = "Foo.size" /\ n_type n = "property"
    /\ n_signatures n =
       Some [ {| sig_arguments := None; sig_return := None;
                 sig_returns := Some [ {| tr_type := Some "Number" |} ] |} ]
    /\ n_arguments n = None.
Proof.
  intros i opts st.
  apply (value_kinds_have_synthetic_signature opts "f.js" st i).
  - left. reflexivity.
  - left. eexists. reflexivity.
  - reflexivity.
Defined.

(** C9, the claim as stated fails: the signature of a property node is not
    of the [Signature] shape; it has neither an [arguments] list nor a
    [return] record. *)
Lemma property_signature_is_not_Signature_shaped :
  let i := value_docset "property" "size" "The size." "Number" in
  let st := {| nodes := []; classPrefix := Some "Foo"; warnings := [] |} in
  exists st' n sig,
    member_step {| globalNS := Some "NS" |} "f.js" st i = Done st'
    /\ obj_get "Foo.size" (nodes st') = Some n
    /\ n_signatures n = Some [sig]
    /\ sig_arguments sig = None /\ sig_return sig = None
    /\ ~ Signature_shape sig.
Proof.
  eexists _, _, _. repeat split.
  intros [_ [r H]]. discriminate H.
Qed.

Lemma translate_params_args (memberName : string) (ps : list Param) :
  (translate_params memberName ps).1
  = (fun p => (translate_param memberName p).1) <$> ps.
Proof.
  induction ps as [|p ps IH]; [reflexivity|].
  cbn [translate_params fmap list_fmap].
  destruct (translate_param memberName p) as [a w].
  destruct (translate_params memberName ps) as [args ws].
  cbn in *. now rewrite IH.
Qed.

(** C10. A documented method or event docset with a proper name gives a
    node with exactly one signature.  With [params], the node has a
    top-level [arguments] list, one argument per parameter in order, and
    the signature's [arguments] is that same list; without [params], the
    node has no [arguments] and the signature's [arguments] is
    undefined. *)
Theorem member_arguments (opts : Options) (file : string) (st : AsmState)
  (i : Docset) :
  d_tagname i = "method" \/ d_tagname i = "event" ->
  documented i ->
  fatal_name opts st i = false ->
  let name := member_name opts (classPrefix st) i in
  exists n sig st',
    member_step opts file st i = Done st'
    /\ nodes st' = obj_set name n (nodes st)
    /\ n_id n = name /\ n_type n = d_tagname i
    /\ n_signatures n = Some [sig]
    /\ sig_arguments sig = n_arguments n
    /\ sig_return sig = Some (translate_return (d_return i))
    /\ (forall ps, d_params i = Some ps ->
          n_arguments n
          = Some ((fun p => (translate_param name p).1) <$> ps)
          /\ sig_arguments sig
             = Some ((fun p => (translate_param name p).1) <$> ps))
    /\ (d_params i = None ->
          n_arguments n = None /\ sig_arguments sig = None).
Proof.
  intros Ht Hd Hf name.
  rewrite (member_step_documented opts file st i Hd Hf). fold name.
  assert (Hb : (String.eqb (d_tagname i) "method" || is_event i) = true
               /\ (if is_event i then "event" else "method") = d_tagname i).
  { unfold is_event. destruct Ht as [-> | ->]; split; reflexivity. }
  destruct Hb as [-> ->].
  unfold complete_member.
  destruct (d_params i) as [ps|] eqn:Ep.
  - pose proof (translate_params_args name ps) as Ha.
    destruct (translate_params name ps) as [args ws]. cbn in Ha. subst args.
    destruct (is_event i), (d_bubbles i), (d_cancelable i);
      (eexists _, _, _; split; [reflexivity|];
       do 6 (split; [reflexivity|]);
       split; [intros ps' [= <-]; split; reflexivity | discriminate]).
  - destruct (is_event i), (d_bubbles i), (d_cancelable i);
      (eexists _, _, _; split; [reflexivity|];
       do 6 (split; [reflexivity|]);
       split; [discriminate | intros _; split; reflexivity]).
Qed.

Lemma member_arguments_witness :
  let i := call_docset "method" "bar" "Does it."
             (Some [ {| p_name := "a"; p_doc := "first";
                        p_type := "string|number"; p_optional := false |} ])
             (Some {| ret_type := "[string]"; ret_description := "all" |}) in
  let opts := {| globalNS := Some "NS" |} in
  let st := {| nodes := []; classPrefix := Some "Foo"; warnings := [] |} in
  exists n sig st',
    member_step opts "f.js" st i = Done st'
    /\ nodes st' = obj_set "Foo.bar" n (nodes st)
    /\ n_id n = "Foo.bar" /\ n_type n = "method"
    /\ n_signatures n = Some [sig]
    /\ sig_arguments sig = n_arguments n
    /\ sig_return sig = Some (translate_return (d_return i))
    /\ (forall ps, d_params i = Some ps ->
          n_arguments n
          = Some ((fun p => (translate_param "Foo.bar" p).1) <$> ps)
          /\ sig_arguments sig
             = Some ((fun p => (translate_param "Foo.bar" p).1) <$> ps))
    /\ (d_params i = None ->
          n_arguments n = None /\ sig_arguments sig = None).
Proof.
  intros i opts st.
  apply (member_arguments opts "f.js" st i).
  - left. reflexivity.
  - left. eexists. reflexivity.
  - reflexivity.
Defined.

(** ** The [nodes] object: reads after writes *)

Lemma assoc_get_set_eq (k : string) (v : Node) (o : list (string * Node)) :
  obj_get k (assoc_set k v o) = Some v.
Proof.
  induction o as [|[k' v'] o IH]; simpl.
  - now rewrite String.eqb_refl.
  - destruct (String.eqb k' k) eqn:E; simpl.
    + now rewrite String.eqb_refl.
    + now rewrite E.
Qed.

Lemma assoc_get_set_ne (k k' : string) (v : Node) (o : list (string * Node)) :
  k <> k' -> obj_get k' (assoc_set k v o) = obj_get k' o.
Proof.
  intros Hne. induction o as [|[k0 v0] o IH]; simpl.
  - destruct (String.eqb k k') eqn:E; [|reflexivity].
    apply String.eqb_eq in E. contradiction.
  - destruct (String.eqb k0 k) eqn:E; simpl.
    + apply String.eqb_eq in E. subst k0.
      destruct (String.eqb k k') eqn:E'; [|reflexivity].
      apply String.eqb_eq in E'. contradiction.
    + now rewrite IH.
Qed.

Lemma obj_get_set_eq (k : string) (v : Node) (o : list (string * Node)) :
  k <> proto_key -> obj_get k (obj_set k v o) = Some v.
Proof.
  intros H. unfold obj_set.
  destruct (String.eqb k proto_key) eqn:E;
    [apply String.eqb_eq in E; contradiction | apply assoc_get_set_eq].
Qed.

Lemma obj_get_set_ne (k k' : string) (v : Node) (o : list (string * Node)) :
  k <> k' -> obj_get k' (obj_set k v o) = obj_get k' o.
Proof.
  intros H. unfold obj_set.
  destruct (String.eqb k proto_key); [reflexivity | now apply assoc_get_set_ne].
Qed.

(** ** The owning class *)

Lemma is_class_docset_spec (i : Docset) :
  is_class_docset i = true <-> d_tagname i = "class" /\ is_Some (d_doc i).
Proof.
  unfold is_class_docset.
  now rewrite andb_true_iff, String.eqb_eq, bool_decide_eq_true.
Qed.

Lemma class_node_Done (c : Docset) :
  is_class_docset c = true -> class_node c = Done (class_translation c).
Proof.
  intros [_ H]%is_class_docset_spec. unfold class_node.
  rewrite createBasicTranslation_documented by now left. reflexivity.
Qed.

Lemma class_translation_fields (c : Docset) :
  n_id (class_translation c) = d_name c
  /\ n_type (class_translation c) = "class"
  /\ n_inherits (class_translation c)
     = match d_inherits c with
       | Some (x :: l) => Some (x :: l)
       | _ => None
       end
  /\ n_allowchild (class_translation c) = tag_doc <$> d_allowchild c
  /\ n_define (class_translation c) = tag_doc <$> d_define c
  /\ n_bound (class_translation c) = None
  /\ n_section (class_translation c) = None.
Proof.
  unfold class_translation, complete_class.
  destruct (d_inherits c) as [[|x l]|], (d_allowchild c), (d_define c);
    repeat split.
Qed.

Lemma grab_class_spec (merged : list Docset) (st : AsmState) :
  let classes := List.filter is_class_docset merged in
  grab_class merged st =
  Done (List.filter (fun i => negb (is_class_docset i)) merged,
        {| nodes := fold_left put_class classes (nodes st);
           classPrefix :=
             default (classPrefix st) ((fun c => Some (d_name c)) <$> last classes);
           warnings := warnings st |}).
Proof.
  revert st. induction merged as [|i rest IH]; intros st.
  - destruct st; reflexivity.
  - cbn [grab_class List.filter].
    destruct (is_class_docset i) eqn:E; cbn [negb].
    + rewrite (class_node_Done i E). cbn [mbind Outcome_bind].
      rewrite IH. cbn [nodes classPrefix warnings fold_left].
      rewrite last_cons. unfold put_class at 2.
      destruct (last (List.filter is_class_docset rest)); reflexivity.
    + rewrite IH. reflexivity.
Qed.

Lemma put_class_lookup (classes : list Docset) (c : Docset) :
  In c classes -> d_name c <> proto_key ->
  exists c', In c' classes /\ d_name c' = d_name c
    /\ obj_get (d_name c) (fold_left put_class classes [])
       = Some (class_translation c')
    /\ (last classes = Some c -> c' = c).
Proof.
  induction classes as [|x classes IH] using rev_ind; [intros []|].
  intros Hin Hp. rewrite fold_left_app. cbn [fold_left]. unfold put_class at 1.
  rewrite last_snoc.
  destruct (String.eq_dec (d_name x) (d_name c)) as [E | E].
  - exists x. rewrite <- E. rewrite obj_get_set_eq by now rewrite E.
    repeat split; [apply in_or_app; right; now left | congruence].
  - rewrite obj_get_set_ne by exact E.
    apply in_app_or in Hin as [Hin | [-> | []]]; [|contradiction].
    destruct (IH Hin Hp) as (c' & H1 & H2 & H3 & _).
    exists c'. repeat split; [apply in_or_app; now left | exact H2 | exact H3 |].
    intros [= ->]. contradiction.
Qed.

Lemma obj_get_proto_set (k : string) (v : Node) (o : list (string * Node)) :
  obj_get proto_key (obj_set k v o) = obj_get proto_key o.
Proof.
  unfold obj_set. destruct (String.eqb k proto_key) eqn:E; [reflexivity|].
  apply String.eqb_neq in E. now apply assoc_get_set_ne.
Qed.

Lemma put_class_other (classes : list Docset) (k : string)
  (o : list (string * Node)) :
  (forall c, In c classes -> d_name c <> k) ->
  obj_get k (fold_left put_class classes o) = obj_get k o.
Proof.
  revert o. induction classes as [|c classes IH]; intros o Hne; [reflexivity|].
  cbn [fold_left]. rewrite IH by (intros c' Hin; apply Hne; now right).
  unfold put_class. apply obj_get_set_ne. apply Hne. now left.
Qed.

Lemma put_class_proto (classes : list Docset) (o : list (string * Node)) :
  obj_get proto_key (fold_left put_class classes o) = obj_get proto_key o.
Proof.
  revert o. induction classes as [|c classes IH]; intros o; [reflexivity|].
  cbn [fold_left]. rewrite IH. apply obj_get_proto_set.
Qed.

(** After the writes of all class docsets, a name holds the node of the
    last class docset of that name; the name ["__proto__"] holds none. *)
Lemma put_class_last (l1 l2 : list Docset) (c : Docset) :
  (forall c', In c' l2 -> d_name c' <> d_name c) ->
  obj_get (d_name c) (fold_left put_class (l1 ++ c :: l2) [])
  = if String.eqb (d_name c) proto_key then None
    else Some (class_translation c).
Proof.
  intros Hne. destruct (String.eqb (d_name c) proto_key) eqn:E.
  - apply String.eqb_eq in E. rewrite E. now rewrite put_class_proto.
  - apply String.eqb_neq in E.
    rewrite fold_left_app. cbn [fold_left].
    rewrite put_class_other by exact Hne.
    unfold put_class at 1. now apply obj_get_set_eq.
Qed.

(** C4 (as the code has it). Every docset tagged ["class"] that has a
    description is removed from the working list and translated to a class
    node, with [inherits] (when not empty), [allowchild] and [define]
    copied, which is written to [nodes] under its name, in the order of the
    list.  So [nodes] ends up holding, under each name, the node of the
    last class docset of that name, except that the name ["__proto__"]
    holds nothing; and [classPrefix] is the name of the last class docset.
    When there is exactly one, its node is the only one that the pass
    writes (none when it is named ["__proto__"]) and it sets
    [classPrefix]. *)
Theorem owning_class (merged : list Docset) :
  let classes := List.filter is_class_docset merged in
  exists ns,
    grab_class merged initial_state =
      Done (List.filter (fun i => negb (is_class_docset i)) merged,
            {| nodes := ns; classPrefix := d_name <$> last classes;
               warnings := [] |})
    /\ (forall i, In i (List.filter (fun i => negb (is_class_docset i)) merged)
          <-> In i merged /\ ~ (d_tagname i = "class" /\ is_Some (d_doc i)))
    /\ ns = fold_left
              (fun o c => obj_set (d_name c) (class_translation c) o)
              classes []
    /\ (forall c, In c classes ->
          class_node c = Done (class_translation c)
          /\ n_id (class_translation c) = d_name c
          /\ n_type (class_translation c) = "class"
          /\ n_inherits (class_translation c)
             = match d_inherits c with
               | Some (x :: l) => Some (x :: l)
               | _ => None
               end
          /\ n_allowchild (class_translation c) = tag_doc <$> d_allowchild c
          /\ n_define (class_translation c) = tag_doc <$> d_define c)
    /\ (forall l1 c l2,
          classes = (l1 ++ c :: l2)%list ->
          (forall c', In c' l2 -> d_name c' <> d_name c) ->
          obj_get (d_name c) ns
          = if String.eqb (d_name c) proto_key then None
            else Some (class_translation c))
    /\ (forall k, (forall c, In c classes -> d_name c <> k) ->
          obj_get k ns = None)
    /\ (forall c, classes = [c] ->
          ns = obj_set (d_name c) (class_translation c) []
          /\ d_name <$> last classes = Some (d_name c)).
Proof.
  intros classes.
  exists (fold_left put_class classes []).
  split.
  { rewrite grab_class_spec. fold classes.
    cbn [nodes classPrefix warnings initial_state].
    now destruct (last classes). }
  split.
  { intros i. rewrite filter_In, negb_true_iff, <- is_class_docset_spec.
    now destruct (is_class_docset i). }
  split; [reflexivity|].
  split.
  { intros c [_ Hc]%filter_In.
    split; [now apply class_node_Done|].
    destruct (class_translation_fields c) as (H1 & H2 & H3 & H4 & H5 & _).
    auto. }
  split.
  { intros l1 c l2 -> Hne. now apply put_class_last. }
  split.
  { intros k Hne. now rewrite put_class_other. }
  intros c ->. split; reflexivity.
Qed.

(** C4, the claim as stated fails: of two class docsets both are removed
    and both become class nodes, and the second one sets [classPrefix]; a
    method between them is named after the second class. *)
Lemma later_class_overrides_prefix :
  let a := plain_docset "class" "A" (Some "first") in
  let b := plain_docset "class" "B" (Some "second") in
  let bar := plain_docset "method" "bar" (Some "does it") in
  (exists ns,
     grab_class [a; bar; b] initial_state =
       Done ([bar], {| nodes := ns; classPrefix := Some "B"; warnings := [] |})
     /\ (n_type <$> obj_get "A" ns) = Some "class"
     /\ (n_type <$> obj_get "B" ns) = Some "class")
  /\ exists m ws,
       @process_jsd insertion_order [a; bar; b] "f.js"
         {| globalNS := Some "NS" |} = Done (m, ws)
       /\ (n_type <$> m !! ".B.bar") = Some "method"
       /\ m !! ".A.bar" = None.
Proof.
  split.
  - eexists. repeat split.
  - eexists _, _. split; [reflexivity|].
    split; vm_compute; reflexivity.
Qed.

(** ** Bound methods *)

Lemma list_ascii_of_append (s t : string) :
  list_ascii_of_string (s +:+ t)
  = (list_ascii_of_string s ++ list_ascii_of_string t)%list.
Proof.
  induction s as [|a s IH]; [reflexivity|].
  rewrite append_cons. simpl. now rewrite IH.
Qed.

Lemma string_of_list_ascii_app (l1 l2 : list ascii) :
  string_of_list_ascii (l1 ++ l2)
  = string_of_list_ascii l1 +:+ string_of_list_ascii l2.
Proof.
  induction l1 as [|a l1 IH]; [reflexivity|].
  simpl. now rewrite append_cons, IH.
Qed.

Lemma bound_scan_dot (r rest : list ascii) (e : ascii) :
  Forall name_char r -> JsString.is_line_terminator e = false ->
  bound_scan (r ++ "."%char :: e :: rest)
  = Some (r ++ "#"%char :: e :: rest)%list.
Proof.
  intros Hr He. induction Hr as [|c r [Hc1 Hc2] Hr IH]; simpl.
  - now rewrite He.
  - rewrite Hc2, IH.
    destruct (Ascii.eqb c ".") eqn:E; [|reflexivity].
    apply Ascii.eqb_eq in E. contradiction.
Qed.

(** An id without separator is left as it is. *)
Lemma bound_scan_no_dot (r : list ascii) :
  Forall (fun c => c <> "."%char) r -> bound_scan r = None.
Proof.
  induction 1 as [|c r Hc Hr IH]; [reflexivity|].
  cbn [bound_scan]. rewrite IH.
  destruct (JsString.is_line_terminator c); [reflexivity|].
  destruct (Ascii.eqb c ".") eqn:E; [|reflexivity].
  apply Ascii.eqb_eq in E. contradiction.
Qed.

Lemma bound_id_no_dot (id : string) :
  ~ has_char "." id -> bound_id id = id.
Proof.
  intros H. unfold bound_id.
  destruct (rev (list_ascii_of_string id)) as [|c r] eqn:E; [reflexivity|].
  destruct (JsString.is_line_terminator c); [reflexivity|].
  rewrite bound_scan_no_dot; [reflexivity|].
  apply List.Forall_forall. intros x Hx ->. apply H. unfold has_char.
  apply in_rev. rewrite E. now right.
Qed.

(** On an id of the form [owner.name] the replacement rewrites the
    separator. *)
Lemma bound_id_owner_name (owner' name : string) (e : ascii) :
  JsString.is_line_terminator e = false ->
  name <> "" ->
  Forall name_char (list_ascii_of_string name) ->
  let owner := owner' +:+ String e "" in
  bound_id (owner +:+ "." +:+ name) = owner +:+ "#" +:+ name.
Proof.
  intros He Hne Hn owner. unfold bound_id.
  rewrite !list_ascii_of_append.
  change (list_ascii_of_string ".") with ["."%char].
  unfold owner. rewrite list_ascii_of_append.
  change (list_ascii_of_string (String e "")) with [e].
  destruct (list_ascii_of_string name) as [|c0 ln0] eqn:En using rev_ind.
  { destruct name; [contradiction | discriminate En]. }
  clear IHln0.
  apply Forall_app in Hn as [Hn0 Hc]. apply Forall_inv in Hc as [_ Hc].
  rewrite !rev_app_distr. cbn [rev app].
  rewrite Hc.
  rewrite <- !app_assoc. cbn [app].
  rewrite (bound_scan_dot (rev ln0) (rev (list_ascii_of_string owner')) e)
    by (try apply Forall_rev; assumption).
  rewrite <- (string_of_list_ascii_of_string
                ((owner' +:+ String e "") +:+ "#" +:+ name)).
  f_equal. rewrite !list_ascii_of_append, En.
  rewrite rev_app_distr, rev_involutive. cbn [rev].
  rewrite rev_involutive, <- !app_assoc. reflexivity.
Qed.

Lemma stamp_fields (file : string) (node : Node) :
  n_id (stamp file node) = n_id node
  /\ n_type (stamp file node) = n_type node
  /\ n_section (stamp file node) = n_section node
  /\ n_bound (stamp file node) = n_bound node
  /\ n_file (stamp file node) = Some file.
Proof.
  unfold stamp. cbv zeta.
  destruct (String.eqb "class" _); destruct node; repeat split.
Qed.

Lemma storage_key_default (section : option string) (id : string) :
  storage_key section id = default "" section +:+ "." +:+ id.
Proof.
  unfold storage_key, JsString.truthy.
  destruct section as [s|]; [|reflexivity].
  destruct (String.eqb s "") eqn:E; [|reflexivity].
  apply String.eqb_eq in E. now subst s.
Qed.

Lemma storage_key_not_proto (section : option string) (id : string) :
  storage_key section id <> proto_key.
Proof.
  rewrite storage_key_default. intros E.
  assert (H : has_char "." proto_key).
  { rewrite <- E. unfold has_char. rewrite !list_ascii_of_append.
    apply in_or_app. right. now left. }
  unfold has_char in H. cbv in H. intuition discriminate.
Qed.

Lemma obj_put_storage_key (section : option string) (id : string) (v : Node)
  (l : gmap string Node) :
  obj_put (storage_key section id) v l = <[storage_key section id := v]> l.
Proof.
  unfold obj_put.
  destruct (String.eqb (storage_key section id) proto_key) eqn:E;
    [|reflexivity].
  apply String.eqb_eq in E. now apply storage_key_not_proto in E.
Qed.

(** What one step stores for a bound method. *)
Lemma post_step_bound (file : string) (l : gmap string Node) (node : Node) :
  n_type node = "method" -> bound_truthy (n_bound node) = true ->
  let id := n_id node in
  let twin := bound_id id in
  post_step file l node =
  <[storage_key (n_section node) twin :=
      set_bound (BoundRef id) (set_id twin (stamp file node))]>
    (<[storage_key (n_section node) id :=
        set_bound (BoundRef twin) (stamp file node)]> l).
Proof.
  intros Ht Hb. cbv zeta. unfold post_step. cbv zeta.
  destruct (stamp_fields file node) as (H1 & H2 & H3 & H4 & _).
  rewrite H1, H2, H4, Ht, Hb.
  change (String.eqb "section" "method") with false.
  change (String.eqb "method" "method" && true) with true. cbv iota.
  rewrite !obj_put_storage_key.
  replace (n_section (set_bound (BoundRef (bound_id (n_id node)))
                        (stamp file node)))
    with (n_section node); [now rewrite H3|].
  rewrite <- H3. now destruct (stamp file node).
Qed.

(** What one step stores for any other node that is not a section. *)
Lemma post_step_plain (file : string) (l : gmap string Node) (node : Node) :
  n_type node <> "section" ->
  n_type node <> "method" \/ bound_truthy (n_bound node) = false ->
  post_step file l node
  = <[storage_key (n_section node) (n_id node) := stamp file node]> l.
Proof.
  intros Hs Hb. unfold post_step. cbv zeta.
  destruct (stamp_fields file node) as (H1 & H2 & H3 & H4 & _).
  rewrite H1, H2, H3, H4.
  destruct (String.eqb "section" (n_type node)) eqn:E;
    [apply String.eqb_eq in E; now destruct Hs|].
  rewrite !obj_put_storage_key.
  destruct (String.eqb "method" (n_type node)) eqn:E'; [|reflexivity].
  apply String.eqb_eq in E'.
  destruct Hb as [Hb | Hb]; [now destruct Hb | now rewrite Hb].
Qed.

Lemma bound_id_parts (owner name : string) :
  owner_part owner -> name_part name ->
  bound_id (owner +:+ "." +:+ name) = owner +:+ "#" +:+ name.
Proof.
  intros (o & e & -> & He) [Hne Hn]. now apply bound_id_owner_name.
Qed.

(** The post-processing pass on a [nodes] object that does hold a bound
    method.  For a method node with a truthy [bound] whose
    id is [owner.name], one step of the post-processing pass stores exactly
    two nodes: the original under its section-prefixed key and a clone
    under the section-prefixed key of its own id [owner#name]; the two ids
    differ in that separator only, the [bound] of each is the id of the
    other, and the clone agrees with the original in every other field. *)
Lemma bound_method_twins (file : string) (l : gmap string Node)
  (node : Node) (owner name : string) :
  n_type node = "method" ->
  bound_truthy (n_bound node) = true ->
  n_id node = owner +:+ "." +:+ name ->
  owner_part owner ->
  name_part name ->
  let section := default "" (n_section node) in
  let k1 := section +:+ "." +:+ owner +:+ "." +:+ name in
  let k2 := section +:+ "." +:+ owner +:+ "#" +:+ name in
  exists original clone,
    post_step file l node = <[k2 := clone]> (<[k1 := original]> l)
    /\ k1 <> k2
    /\ post_step file l node !! k1 = Some original
    /\ post_step file l node !! k2 = Some clone
    /\ (forall k, k <> k1 -> k <> k2 -> post_step file l node !! k = l !! k)
    /\ n_id original = owner +:+ "." +:+ name
    /\ n_id clone = owner +:+ "#" +:+ name
    /\ n_bound original = Some (BoundRef (n_id clone))
    /\ n_bound clone = Some (BoundRef (n_id original))
    /\ n_type original = "method" /\ n_type clone = "method"
    /\ clone = set_bound (BoundRef (n_id original))
                 (set_id (n_id clone) original)
    /\ post_process file [node] = <[k2 := clone]> {[k1 := original]}.
Proof.
  intros Ht Hb Hid Ho Hn section k1 k2.
  pose proof (bound_id_parts owner name Ho Hn) as Htwin.
  assert (Hstep : forall l', post_step file l' node =
    <[k2 := set_bound (BoundRef (n_id node))
              (set_id (owner +:+ "#" +:+ name) (stamp file node))]>
      (<[k1 := set_bound (BoundRef (owner +:+ "#" +:+ name))
                 (stamp file node)]> l')).
  { intros l'. rewrite (post_step_bound file l' node Ht Hb). cbv zeta.
    rewrite !storage_key_default, Hid, Htwin. reflexivity. }
  assert (Hne : k1 <> k2).
  { unfold k1, k2. intros E.
    do 3 apply String.app_inj in E. discriminate E. }
  destruct (stamp_fields file node) as (H1 & H2 & _).
  eexists _, _. split; [apply Hstep|].
  split; [exact Hne|].
  rewrite Hstep.
  split; [now rewrite lookup_insert_ne, lookup_insert_eq|].
  split; [now rewrite lookup_insert_eq|].
  split; [intros k Hk1 Hk2; now rewrite !lookup_insert_ne|].
  destruct (stamp file node); cbn in *; subst.
  repeat split; try assumption.
  unfold post_process. cbn [fold_left]. rewrite Hstep. reflexivity.
Qed.

Lemma bound_method_twins_example :
  let node := bound_method "Foo.bar" in
  (n_type node = "method" /\ bound_truthy (n_bound node) = true
   /\ n_id node = "Foo" +:+ "." +:+ "bar"
   /\ owner_part "Foo" /\ name_part "bar")
  /\ exists original clone,
       post_step "f.js" ∅ node
       = <[".Foo#bar" := clone]> (<[".Foo.bar" := original]> ∅)
       /\ n_id original = "Foo.bar" /\ n_id clone = "Foo#bar"
       /\ n_bound original = Some (BoundRef "Foo#bar")
       /\ n_bound clone = Some (BoundRef "Foo.bar").
Proof.
  intros node.
  assert (Ho : owner_part "Foo").
  { exists "Fo", "o"%char. split; reflexivity. }
  assert (Hn : name_part "bar").
  { split; [discriminate|].
    repeat constructor; first [discriminate | reflexivity]. }
  split.
  { repeat split; [exact Ho | discriminate | apply Hn]. }
  destruct (bound_method_twins "f.js" ∅ node "Foo" "bar"
              eq_refl eq_refl eq_refl Ho Hn)
    as (original & clone & H1 & _ & _ & _ & _ & H2 & H3 & H4 & H5 & _).
  exists original, clone.
  rewrite H4, H5, H2, H3. repeat split. exact H1.
Qed.

(** When the id of such a bound method has no owner part, the clone gets
    the same id and the same key, so the pass stores one node, which names
    itself as its twin. *)
Lemma bound_method_without_owner_is_one_node :
  let node := bound_method "bar" in
  n_type node = "method" /\ bound_truthy (n_bound node) = true
  /\ exists stored,
       post_process "f.js" [node] = {[ ".bar" := stored ]}
       /\ n_id stored = "bar"
       /\ n_bound stored = Some (BoundRef "bar").
Proof.
  repeat split.
  eexists. split.
  - unfold post_process. cbn [fold_left].
    rewrite post_step_bound by reflexivity. cbv zeta.
    change (bound_id (n_id (bound_method "bar"))) with "bar".
    rewrite insert_insert_eq. reflexivity.
  - split; reflexivity.
Qed.

(** ** The whole assembler *)

Lemma assoc_set_keys (k : string) (v : Node) (o : list (string * Node)) :
  (In k (o.*1) /\ (assoc_set k v o).*1 = o.*1)
  \/ (~ In k (o.*1) /\ (assoc_set k v o).*1 = (o.*1 ++ [k])%list).
Proof.
  induction o as [|[k' v'] o IH]; [right; split; [intros [] | reflexivity]|].
  cbn [assoc_set]. destruct (String.eqb k' k) eqn:E.
  - apply String.eqb_eq in E. subst k'. left. split; [now left | reflexivity].
  - apply String.eqb_neq in E. destruct IH as [[H1 H2] | [H1 H2]].
    + left. split; [now right | cbn; now rewrite H2].
    + right. split; [intros [H | H]; contradiction | cbn; now rewrite H2].
Qed.

Lemma assoc_set_Forall (P : string * Node -> Prop) (k : string) (v : Node)
  (o : list (string * Node)) :
  Forall P o -> P (k, v) -> Forall P (assoc_set k v o).
Proof.
  intros Ho Hv. induction Ho as [|[k' v'] o Hx Ho IH]; cbn [assoc_set].
  - now constructor.
  - destruct (String.eqb k' k); constructor; assumption.
Qed.

Lemma obj_set_well_formed (k : string) (v : Node) (o : list (string * Node)) :
  well_formed o -> plain_node k v -> well_formed (obj_set k v o).
Proof.
  intros [Hnd Hall] Hv. unfold obj_set.
  destruct (String.eqb k proto_key); [now split|].
  split; [|now apply assoc_set_Forall].
  destruct (assoc_set_keys k v o) as [[_ ->] | [Hn ->]]; [exact Hnd|].
  apply NoDup_app. repeat split; [exact Hnd | | apply NoDup_singleton].
  intros x Hx ->%list_elem_of_singleton. apply Hn. now apply list_elem_of_In.
Qed.

Lemma obj_get_In (k : string) (v : Node) (o : list (string * Node)) :
  obj_get k o = Some v -> In (k, v) o.
Proof.
  induction o as [|[k' v'] o IH]; [discriminate|].
  cbn [obj_get]. destruct (String.eqb k' k) eqn:E.
  - apply String.eqb_eq in E. intros [= ->]. subst. now left.
  - intros H. right. now apply IH.
Qed.

Lemma complete_member_fields (memberName type : string) (d : Docset) :
  type <> "section" ->
  plain_node memberName
    (complete_member memberName d (basic_translation memberName type d)).1
  /\ n_type (complete_member memberName d
               (basic_translation memberName type d)).1 = type.
Proof.
  intros Hty. unfold complete_member, plain_node.
  destruct (d_params d) as [ps|];
    [destruct (translate_params memberName ps) as [args ws]|];
    destruct (is_event d), (d_bubbles d), (d_cancelable d); cbn;
    intuition.
Qed.

Lemma is_value_kind_spec (t : string) :
  is_value_kind t = true
  <-> t = "property" \/ t = "attribute" \/ t = "binding".
Proof.
  unfold is_value_kind. rewrite !orb_true_iff, !String.eqb_eq. tauto.
Qed.

(** The effect of one step on a documented docset with a proper name:
    either nothing is written (unknown tag), or one plain node of the
    docset's kind is written under the member name. *)
Lemma member_step_effect (opts : Options) (file : string) (st : AsmState)
  (d : Docset) :
  documented d -> fatal_name opts st d = false ->
  let name := member_name opts (classPrefix st) d in
  exists st',
    member_step opts file st d = Done st'
    /\ classPrefix st' = (resolve_prefix opts (classPrefix st) d).1
    /\ ((nodes st' = nodes st
         /\ d_tagname d <> "method" /\ is_value_kind (d_tagname d) = false)
        \/ exists n,
             nodes st' = obj_set name n (nodes st)
             /\ plain_node name n /\ n_type n = d_tagname d
             /\ (d_tagname d = "method" \/ is_event d = true
                 \/ is_value_kind (d_tagname d) = true)).
Proof.
  intros Hd Hf name.
  rewrite (member_step_documented opts file st d Hd Hf). fold name.
  eexists. split; [reflexivity|].
  destruct (String.eqb (d_tagname d) "method" || is_event d) eqn:E.
  - split; [reflexivity|]. right. eexists. split; [reflexivity|].
    assert (Hty : (if is_event d then "event" else "method") = d_tagname d).
    { unfold is_event in *. apply orb_true_iff in E.
      destruct (String.eqb (d_tagname d) "event") eqn:E'.
      - now apply String.eqb_eq in E'.
      - destruct E as [E | E]; [now apply String.eqb_eq in E | discriminate]. }
    rewrite Hty. split; [|split].
    + apply complete_member_fields. rewrite <- Hty. now destruct (is_event d).
    + apply complete_member_fields. rewrite <- Hty. now destruct (is_event d).
    + apply orb_true_iff in E as [E | E]; [left | right; now left].
      now apply String.eqb_eq in E.
  - apply orb_false_iff in E as [E1 E2].
    destruct (is_value_kind (d_tagname d)) eqn:Ev.
    + split; [reflexivity|]. right. eexists. split; [reflexivity|].
      split; [|split; [reflexivity | now right; right]].
      apply is_value_kind_spec in Ev.
      unfold plain_node. cbn.
      repeat split. destruct Ev as [-> | [-> | ->]]; discriminate.
    + split; [reflexivity|]. left. repeat split.
      now apply String.eqb_neq in E1.
Qed.

(** ** Post-processing of plain nodes *)

Lemma post_step_plain_self (file : string) (acc : gmap string Node)
  (n : Node) :
  plain_node (n_id n) n ->
  post_step file acc n = <["." +:+ n_id n := stamp file n]> acc.
Proof.
  intros (_ & Hb & Hs & Ht).
  rewrite post_step_plain by (auto; right; now rewrite Hb).
  now rewrite storage_key_default, Hs.
Qed.

Lemma post_fold_other (file : string) (ns : list Node) (k : string)
  (acc : gmap string Node) :
  Forall (fun n => plain_node (n_id n) n) ns ->
  ~ In k (n_id <$> ns) ->
  fold_left (post_step file) ns acc !! ("." +:+ k) = acc !! ("." +:+ k).
Proof.
  revert acc. induction ns as [|n ns IH]; intros acc Hall Hk; [reflexivity|].
  apply Forall_cons in Hall as [Hn Hall].
  cbn [fold_left]. rewrite IH; [|exact Hall | intros H; apply Hk; now right].
  rewrite post_step_plain_self by exact Hn.
  apply lookup_insert_ne. intros E. apply String.app_inj in E.
  apply Hk. now left.
Qed.

Lemma post_fold_lookup (file : string) (ns : list Node) (n : Node)
  (acc : gmap string Node) :
  Forall (fun n => plain_node (n_id n) n) ns ->
  NoDup (n_id <$> ns) ->
  In n ns ->
  fold_left (post_step file) ns acc !! ("." +:+ n_id n)
  = Some (stamp file n).
Proof.
  revert acc. induction ns as [|x ns IH]; intros acc Hall Hnd Hin; [destruct Hin|].
  apply Forall_cons in Hall as [Hx Hall].
  apply NoDup_cons in Hnd as [Hx' Hnd].
  cbn [fold_left]. destruct Hin as [-> | Hin].
  - rewrite post_fold_other; [|exact Hall|].
    + rewrite post_step_plain_self by exact Hx. apply lookup_insert_eq.
    + intros H. apply Hx'. now apply list_elem_of_In.
  - now apply IH.
Qed.

(** The delivered map holds every plain node of [nodes], stamped, under
    [".id"], whatever the enumeration order. *)
Lemma post_process_lookup `{Enumeration} (file : string)
  (o : list (string * Node)) (k : string) (n : Node) :
  well_formed o -> obj_get k o = Some n ->
  post_process file (snd <$> enumerate o) !! ("." +:+ k)
  = Some (stamp file n).
Proof.
  intros [Hnd Hall] Hget.
  pose proof (enumerate_perm o) as Hp.
  assert (Hall' : Forall (fun kn : string * Node => plain_node kn.1 kn.2)
                    (enumerate o)).
  { eapply Permutation_Forall; [symmetry; exact Hp | exact Hall]. }
  apply obj_get_In in Hget.
  assert (Hid : n_id n = k).
  { rewrite Forall_forall in Hall. apply list_elem_of_In in Hget.
    now destruct (Hall _ Hget) as [Hid _]. }
  rewrite <- Hid. unfold post_process. apply post_fold_lookup.
  - apply Forall_fmap. eapply Forall_impl; [exact Hall'|].
    intros [k' n'] (Hid' & Hrest). cbn in *. now rewrite Hid'.
  - rewrite <- list_fmap_compose.
    assert (E : (n_id ∘ snd) <$> enumerate o = fst <$> enumerate o).
    { apply list_fmap_ext. intros i kn Hi. cbn.
      rewrite Forall_forall in Hall'.
      now destruct (Hall' kn (list_elem_of_lookup_2 _ _ _ Hi)) as [-> _]. }
    rewrite E, Hp. exact Hnd.
  - apply list_elem_of_In. apply list_elem_of_fmap. exists (k, n).
    split; [reflexivity|]. rewrite Hp. now apply list_elem_of_In.
Qed.

Lemma dotted_not_proto (a b : string) : a +:+ "." +:+ b <> proto_key.
Proof.
  intros E.
  assert (H : has_char "." proto_key).
  { rewrite <- E. unfold has_char. rewrite !list_ascii_of_append.
    apply in_or_app. right. now left. }
  unfold has_char in H. cbv in H. intuition discriminate.
Qed.

Section MembersUnderClass.

Variables (opts : Options) (file g cls meth : string).
Hypothesis globalNS_defined : globalNS opts = Some g.

Lemma member_name_under_class (d : Docset) :
  resolve_prefix opts (Some cls) d = (Some cls, join_of d)
  /\ member_name opts (Some cls) d = cls +:+ join_of d +:+ d_name d.
Proof.
  unfold member_name. rewrite resolve_prefix_cases, globalNS_defined.
  split; reflexivity.
Qed.

Lemma member_name_not_class (d : Docset) :
  member_name opts (Some cls) d <> cls.
Proof.
  destruct (member_name_under_class d) as [_ ->]. intros E.
  rewrite <- (append_empty_r cls) in E at 2.
  apply String.app_inj in E. unfold join_of in E.
  destruct (is_event d); discriminate E.
Qed.

Lemma member_name_is_method (d : Docset) :
  member_name opts (Some cls) d = cls +:+ "." +:+ meth
  <-> is_event d = false /\ d_name d = meth.
Proof.
  destruct (member_name_under_class d) as [_ ->]. unfold join_of. split.
  - intros E. apply String.app_inj in E.
    destruct (is_event d); [discriminate E|].
    apply String.app_inj in E. auto.
  - intros [-> ->]. reflexivity.
Qed.

Lemma member_step_under_class (st : AsmState) (d : Docset) :
  classPrefix st = Some cls -> well_formed (nodes st) -> has_class cls st ->
  admissible opts cls meth d ->
  exists st',
    member_step opts file st d = Done st'
    /\ classPrefix st' = Some cls /\ well_formed (nodes st')
    /\ has_class cls st'
    /\ (has_method cls meth st
        \/ (d_tagname d = "method" /\ d_name d = meth)
        -> has_method cls meth st').
Proof.
  intros Hcp Hwf Hc (Hd & Hf & Hm).
  assert (Hf' : fatal_name opts st d = false)
    by (unfold fatal_name; now rewrite Hcp).
  destruct (member_step_effect opts file st d Hd Hf')
    as (st' & Hstep & Hcp' & Heff).
  rewrite Hcp in Hcp', Heff.
  destruct (member_name_under_class d) as [Hr _]. rewrite Hr in Hcp'.
  exists st'. split; [exact Hstep|]. split; [exact Hcp'|].
  unfold has_class, has_method in *.
  destruct Heff as [(Hn & Ht & _) | (n & Hn & Hp & Ht & Hkind)]; rewrite Hn.
  - split; [exact Hwf|]. split; [exact Hc|].
    intros [H | [H _]]; [exact H | contradiction].
  - split; [now apply obj_set_well_formed|].
    split.
    { destruct Hc as (nc & Hc1 & Hc2). exists nc.
      rewrite obj_get_set_ne by apply member_name_not_class. auto. }
    intros Hprev.
    destruct (String.eq_dec (member_name opts (Some cls) d)
                (cls +:+ "." +:+ meth)) as [E | E].
    + exists n. rewrite E. rewrite obj_get_set_eq by apply dotted_not_proto.
      split; [reflexivity|]. rewrite Ht.
      apply member_name_is_method in E as [He Hname].
      specialize (Hm Hname).
      destruct Hkind as [H | [H | H]]; [exact H | congruence | congruence].
    + destruct Hprev as [(nm & H1 & H2) | [Hmeth Hname]].
      * exists nm. rewrite obj_get_set_ne by exact E. auto.
      * destruct E. apply member_name_is_method. split; [|exact Hname].
        unfold is_event. now rewrite Hmeth.
Qed.

Lemma members_under_class (l : list Docset) (st : AsmState) :
  classPrefix st = Some cls -> well_formed (nodes st) -> has_class cls st ->
  Forall (admissible opts cls meth) l ->
  exists st',
    members opts file l st = Done st'
    /\ classPrefix st' = Some cls /\ well_formed (nodes st')
    /\ has_class cls st'
    /\ (has_method cls meth st
        \/ (exists m, In m l /\ d_tagname m = "method" /\ d_name m = meth)
        -> has_method cls meth st').
Proof.
  revert st. induction l as [|d l IH]; intros st Hcp Hwf Hc Hall.
  - exists st. do 4 (split; [first [reflexivity | assumption]|]).
    intros [H | (m & [] & _)]. exact H.
  - apply Forall_cons in Hall as [Hd Hall].
    destruct (member_step_under_class st d Hcp Hwf Hc Hd)
      as (st1 & Hstep & Hcp1 & Hwf1 & Hc1 & Hm1).
    destruct (IH st1 Hcp1 Hwf1 Hc1 Hall) as (st' & Hrun & Hcp' & Hwf' & Hc' & Hm').
    exists st'. cbn [members]. rewrite Hstep.
    do 4 (split; [assumption|]).
    intros [H | (m & [-> | Hin] & Ht & Hn)].
    + apply Hm'. left. apply Hm1. now left.
    + apply Hm'. left. apply Hm1. now right.
    + apply Hm'. right. now exists m.
Qed.

End MembersUnderClass.

Lemma well_formed_get (o : list (string * Node)) (k : string) (n : Node) :
  well_formed o -> obj_get k o = Some n -> plain_node k n.
Proof.
  intros [_ Hall] Hget. apply obj_get_In, list_elem_of_In in Hget.
  rewrite Forall_forall in Hall. exact (Hall _ Hget).
Qed.

(** A node of a well-formed [nodes] object is delivered under the key
    made of its (absent) section, ["."] and its id. *)
Lemma delivered_node `{Enumeration} (file : string)
  (o : list (string * Node)) (k : string) (n : Node) :
  well_formed o -> obj_get k o = Some n ->
  exists n',
    post_process file (snd <$> enumerate o) !! ("." +:+ k) = Some n'
    /\ n_id n' = k /\ n_type n' = n_type n
    /\ "." +:+ k = storage_key (n_section n') (n_id n').
Proof.
  intros Hwf Hget.
  destruct (well_formed_get o k n Hwf Hget) as (Hid & _ & Hs & _).
  destruct (stamp_fields file n) as (H1 & H2 & H3 & _).
  exists (stamp file n).
  split; [now apply post_process_lookup|].
  rewrite H1, H2, H3, Hid, Hs. repeat split.
Qed.

(** C1 (as the code has it). Let [options.globalNS] be defined, and let
    the merged list hold exactly one class docset with a description,
    named ["Foo"], and a method docset named ["bar"] that passes the
    filter; let no property, attribute or binding docset be named ["bar"],
    and let no docset that passes the filter have an improper name.  Then
    the callback receives a map with a node of id ["Foo"] and type
    ["class"] and a node of id ["Foo.bar"] and type ["method"], each under
    the key made of the node's section (or the empty string), ["."] and
    the node's id. *)
Theorem class_and_method_nodes `{Enumeration} (merged : list Docset)
  (file : string) (opts : Options) (c m : Docset) (g : string) :
  globalNS opts = Some g ->
  List.filter is_class_docset merged = [c] ->
  d_name c = "Foo" ->
  In m merged ->
  d_tagname m = "method" -> d_name m = "bar" -> keep_docset m = true ->
  (forall d, In d merged -> d_name d = "bar" ->
     is_value_kind (d_tagname d) = false) ->
  (forall d, In d merged -> keep_docset d = true ->
     is_class_docset d = false ->
     improper_name (member_name opts (Some "Foo") d)
     && bool_decide (d_inheritdoc d = None) = false) ->
  exists result ws n1 n2,
    process_jsd merged file opts = Done (result, ws)
    /\ result !! ".Foo" = Some n1
    /\ n_id n1 = "Foo" /\ n_type n1 = "class"
    /\ ".Foo" = storage_key (n_section n1) (n_id n1)
    /\ result !! ".Foo.bar" = Some n2
    /\ n_id n2 = "Foo.bar" /\ n_type n2 = "method"
    /\ ".Foo.bar" = storage_key (n_section n2) (n_id n2).
Proof.
  intros Hg Hc Hcn Hm Hmt Hmn Hmk Hval Hproper.
  unfold process_jsd. rewrite grab_class_spec, Hc.
  cbn [mbind Outcome_bind fst snd last fmap option_fmap option_map default
       from_option id fold_left nodes classPrefix warnings initial_state].
  unfold put_class. rewrite Hcn.
  set (st0 := {| nodes := obj_set "Foo" (class_translation c) [];
                 classPrefix := Some "Foo"; warnings := [] |}).
  set (l := filter_docsets
              (List.filter (fun i => negb (is_class_docset i)) merged)).
  destruct (class_translation_fields c) as (Hi & Ht & _ & _ & _ & Hb & Hs).
  assert (Hin : forall d, In d l <->
            In d merged /\ is_class_docset d = false /\ keep_docset d = true).
  { intros d. unfold l, filter_docsets.
    rewrite !filter_In, negb_true_iff. tauto. }
  destruct (members_under_class opts file g "Foo" "bar" Hg l st0)
    as (st' & Hrun & _ & Hwf & (n1 & Hn1 & Ht1) & Hmeth).
  - reflexivity.
  - apply obj_set_well_formed.
    + split; constructor.
    + unfold plain_node. rewrite Hi, Ht, Hb, Hs, Hcn. now repeat split.
  - exists (class_translation c). split; [reflexivity | exact Ht].
  - apply List.Forall_forall. intros d (Hd1 & Hd2 & Hd3)%Hin.
    split; [now apply keep_docset_documented|].
    split; [now apply Hproper | now apply Hval].
  - destruct Hmeth as (n2 & Hn2 & Ht2).
    { right. exists m. repeat split; try assumption.
      apply Hin. repeat split; try assumption.
      unfold is_class_docset. now rewrite Hmt. }
    rewrite Hrun. cbn [mbind Outcome_bind mret Outcome_ret].
    destruct (delivered_node file (nodes st') "Foo" n1 Hwf Hn1)
      as (n1' & G1 & G2 & G3 & G4).
    destruct (delivered_node file (nodes st') "Foo.bar" n2 Hwf Hn2)
      as (n2' & K1 & K2 & K3 & K4).
    exists (post_process file (snd <$> enumerate (nodes st'))),
      (warnings st'), n1', n2'.
    split; [reflexivity|].
    repeat split; try assumption; congruence.
Qed.

Lemma class_and_method_nodes_witness :
  let c := plain_docset "class" "Foo" (Some "A class.") in
  let m := plain_docset "method" "bar" (Some "A method.") in
  exists result ws n1 n2,
    @process_jsd insertion_order [c; m] "f.js" {| globalNS := Some "NS" |}
    = Done (result, ws)
    /\ result !! ".Foo" = Some n1
    /\ n_id n1 = "Foo" /\ n_type n1 = "class"
    /\ ".Foo" = storage_key (n_section n1) (n_id n1)
    /\ result !! ".Foo.bar" = Some n2
    /\ n_id n2 = "Foo.bar" /\ n_type n2 = "method"
    /\ ".Foo.bar" = storage_key (n_section n2) (n_id n2).
Proof.
  intros c m.
  apply (@class_and_method_nodes insertion_order [c; m] "f.js"
           {| globalNS := Some "NS" |} c m "NS").
  - reflexivity.
  - reflexivity.
  - reflexivity.
  - right. left. reflexivity.
  - reflexivity.
  - reflexivity.
  - reflexivity.
  - intros d [<- | [<- | []]] Hd; [discriminate Hd | reflexivity].
  - intros d [<- | [<- | []]] Hk Hcl; [discriminate Hcl | reflexivity].
Defined.

(** C1, the claim as stated fails: with [options.globalNS] undefined the
    method of class ["Foo"] is named ["Foobar"], and the delivered map has
    the class and no node ["Foo.bar"]; and a method docset without
    description and without [inheritdoc] is filtered out, whatever the
    options, so that the class node is delivered alone. *)
Lemma method_without_globalNS_is_not_dotted :
  let c := plain_docset "class" "Foo" (Some "A class.") in
  let m := plain_docset "method" "bar" (Some "A method.") in
  let u := plain_docset "method" "bar" None in
  (exists result ws,
     @process_jsd insertion_order [c; m] "f.js" {| globalNS := None |}
     = Done (result, ws)
     /\ (n_type <$> result !! ".Foo") = Some "class"
     /\ result !! ".Foo.bar" = None
     /\ (n_id <$> result !! ".Foobar") = Some "Foobar"
     /\ (n_type <$> result !! ".Foobar") = Some "method"
     /\ size result = 2%nat)
  /\ (exists result ws,
        @process_jsd insertion_order [c; u] "f.js" {| globalNS := Some "NS" |}
        = Done (result, ws)
        /\ (n_type <$> result !! ".Foo") = Some "class"
        /\ result !! ".Foo.bar" = None
        /\ size result = 1%nat).
Proof.
  split; (eexists _, _; split; [reflexivity|]);
    repeat split; vm_compute; reflexivity.
Qed.

(** ** What the assembler never does *)

Lemma put_class_well_formed (classes : list Docset) (o : list (string * Node)) :
  well_formed o -> well_formed (fold_left put_class classes o).
Proof.
  revert o. induction classes as [|c classes IH]; intros o Hwf; [exact Hwf|].
  cbn [fold_left]. apply IH. apply obj_set_well_formed; [exact Hwf|].
  destruct (class_translation_fields c) as (H1 & H2 & _ & _ & _ & H3 & H4).
  unfold plain_node. rewrite H1, H2, H3, H4. now repeat split.
Qed.

(** On documented docsets the members pass ends in a state or on the fatal
    path, never in an exception, and it keeps [nodes] well formed. *)
Lemma members_well_formed (opts : Options) (file : string) (l : list Docset)
  (st : AsmState) :
  Forall documented l -> well_formed (nodes st) ->
  members opts file l st <> Thrown
  /\ forall st', members opts file l st = Done st' -> well_formed (nodes st').
Proof.
  revert st. induction l as [|d l IH]; intros st Hall Hwf.
  - split; [discriminate | now intros st' [= <-]].
  - apply Forall_cons in Hall as [Hd Hall]. cbn [members].
    destruct (fatal_name opts st d) eqn:Hf.
    + rewrite member_step_unfold. cbv zeta. rewrite Hf.
      split; [discriminate | intros st'; discriminate].
    + destruct (member_step_effect opts file st d Hd Hf)
        as (st1 & -> & _ & Heff).
      apply IH; [exact Hall|].
      destruct Heff as [(-> & _) | (n & -> & Hp & _)]; [exact Hwf|].
      now apply obj_set_well_formed.
Qed.

Lemma filter_docsets_documented (l : list Docset) :
  Forall documented (filter_docsets l).
Proof.
  apply List.Forall_forall. intros d [_ H]%filter_In.
  now apply keep_docset_documented.
Qed.

Lemma post_fold_stored (file : string) (ns : list Node) (k : string)
  (n : Node) (acc : gmap string Node) :
  Forall (fun n => plain_node (n_id n) n) ns ->
  fold_left (post_step file) ns acc !! k = Some n ->
  acc !! k = Some n
  \/ exists n0, In n0 ns /\ n = stamp file n0 /\ k = "." +:+ n_id n0.
Proof.
  revert acc. induction ns as [|x ns IH]; intros acc Hall Hk; [now left|].
  apply Forall_cons in Hall as [Hx Hall]. cbn [fold_left] in Hk.
  destruct (IH _ Hall Hk) as [H | (n0 & H1 & H2 & H3)].
  - rewrite post_step_plain_self in H by exact Hx.
    apply lookup_insert_Some in H as [[<- <-] | [_ H]]; [right | now left].
    exists x. repeat split. now left.
  - right. exists n0. repeat split; [now right | exact H2 | exact H3].
Qed.

(** [process_jsd] throws no exception. *)
Lemma process_jsd_never_throws `{Enumeration} (merged : list Docset)
  (file : string) (opts : Options) :
  process_jsd merged file opts <> Thrown.
Proof.
  unfold process_jsd. rewrite grab_class_spec.
  cbn [mbind Outcome_bind fst snd].
  match goal with |- context [members opts file ?l ?st] =>
    destruct (members_well_formed opts file l st) as [Hne _];
      [apply filter_docsets_documented
      | apply put_class_well_formed; split; constructor
      | destruct (members opts file l st); [discriminate | discriminate |];
        now destruct Hne]
  end.
Qed.


(** * Further properties of the assembler *)

(** ** [trim] *)

Lemma trim_fixed (s : string) :
  (forall t, s <> String JsString.space t) ->
  ~ ends_with JsString.space s ->
  trim s = s.
Proof.
  intros Hlead Hend. unfold trim.
  assert (E : drop_spaces s = s).
  { destruct s as [|a s]; [reflexivity|]. cbn [drop_spaces].
    destruct (Ascii.eqb a JsString.space) eqn:E; [|reflexivity].
    apply Ascii.eqb_eq in E. subst a. now destruct (Hlead s). }
  rewrite E. clear E Hlead.
  induction s as [|a s IH]; [reflexivity|].
  cbn [drop_trailing_spaces].
  assert (Hs : ~ ends_with JsString.space s).
  { intros H. apply Hend. apply ends_with_cons. now right. }
  rewrite (IH Hs). destruct s as [|b s]; [|reflexivity].
  destruct (Ascii.eqb a JsString.space) eqn:E; [|reflexivity].
  apply Ascii.eqb_eq in E. subst a. destruct Hend. now exists "".
Qed.

(** X1. [trim] takes a run of spaces off each end and nothing else: the
    argument is the result between two runs of spaces, the result has a
    space at neither end, a string with a space at neither end (whatever
    other white space it has there) is returned as it is, and trimming
    twice is trimming once. *)
Theorem trim_strips_spaces (s : string) :
  (exists n m, s = spaces n +:+ trim s +:+ spaces m)
  /\ (forall t, trim s <> String JsString.space t)
  /\ ~ ends_with JsString.space (trim s)
  /\ ((forall t, s <> String JsString.space t) ->
      ~ ends_with JsString.space s -> trim s = s)
  /\ trim (trim s) = trim s.
Proof.
  destruct (trim_spec s) as (H1 & H2 & H3).
  split; [exact H1|]. split; [exact H2|]. split; [exact H3|].
  split; [apply trim_fixed | now apply trim_fixed].
Qed.

(** ** Short descriptions *)

Lemma blank_line_cons (a : ascii) (s : string) :
  blank_line (String a s)
  <-> (a = JsString.newline /\ exists r, s = String JsString.newline r)
      \/ blank_line s.
Proof.
  unfold blank_line. split.
  - intros ([|b p] & r & E).
    + rewrite append_nil_l in E. injection E as -> ->. left. eauto.
    + rewrite append_cons in E. injection E as -> ->. right. eauto.
  - intros [[-> [r ->]] | (p & r & ->)].
    + now exists "", r.
    + now exists (String a p), r.
Qed.

Lemma short_description_head (a : ascii) (s : string) :
  exists t, short_description_of (String a s) = String a t.
Proof.
  cbn [short_description_of]. destruct s as [|b s]; [eauto|].
  destruct (Ascii.eqb a JsString.newline && Ascii.eqb b JsString.newline)
    eqn:E; [|eauto].
  apply andb_true_iff in E as [E _]. apply Ascii.eqb_eq in E. subst a. eauto.
Qed.

Lemma short_description_step (a b : ascii) (s : string) :
  ~ (a = JsString.newline /\ b = JsString.newline) ->
  short_description_of (String a (String b s))
  = String a (short_description_of (String b s)).
Proof.
  intros H. cbn [short_description_of].
  destruct (Ascii.eqb a JsString.newline && Ascii.eqb b JsString.newline)
    eqn:E; [|reflexivity].
  apply andb_true_iff in E as [E1 E2].
  apply Ascii.eqb_eq in E1, E2. now destruct H.
Qed.

Lemma short_description_no_blank (s : string) :
  ~ blank_line s -> short_description_of s = s.
Proof.
  induction s as [|a s IH]; [reflexivity|]. intros H.
  destruct s as [|b s]; [reflexivity|].
  rewrite short_description_step.
  - f_equal. apply IH. intros Hb. apply H. apply blank_line_cons. now right.
  - intros [-> ->]. apply H. apply blank_line_cons. left. eauto.
Qed.

Lemma short_description_is_short (s : string) :
  ~ blank_line (short_description_of s).
Proof.
  induction s as [|a s IH].
  - intros ([|b p] & r & E); discriminate E.
  - destruct s as [|b s].
    + cbn. intros [[_ [r E]] | ([|c p] & r & E)]%blank_line_cons;
        discriminate E.
    + destruct (ascii_dec a JsString.newline) as [-> | Ha];
        [destruct (ascii_dec b JsString.newline) as [-> | Hb]|].
      * cbn. intros [[_ [r E]] | ([|c p] & r & E)]%blank_line_cons;
          discriminate E.
      * rewrite short_description_step by (intros [_ H]; contradiction).
        destruct (short_description_head b s) as [t Ht].
        intros [[_ [r E]] | H]%blank_line_cons; [|contradiction].
        rewrite Ht in E. injection E as E _. contradiction.
      * rewrite short_description_step by (intros [H _]; contradiction).
        intros [[H _] | H]%blank_line_cons; contradiction.
Qed.

Lemma short_description_prefix (p r : string) :
  ~ blank_line (p +:+ String JsString.newline "") ->
  short_description_of
    (p +:+ String JsString.newline (String JsString.newline r))
  = p +:+ String JsString.newline "".
Proof.
  induction p as [|a p IH]; intros H.
  - rewrite !append_nil_l. cbn [short_description_of].
    now rewrite Ascii.eqb_refl.
  - rewrite !append_cons in *.
    assert (Hp : ~ blank_line (p +:+ String JsString.newline "")).
    { intros Hb. apply H. apply blank_line_cons. now right. }
    destruct p as [|b p].
    + rewrite !append_nil_l in *. rewrite short_description_step.
      * now rewrite (IH Hp).
      * intros [-> _]. apply H. now exists "", "".
    + rewrite !append_cons in *. rewrite short_description_step.
      * now rewrite (IH Hp).
      * intros [-> ->]. apply H. apply blank_line_cons. left. eauto.
Qed.

(** X2. The short description is the description when that has no blank
    line; otherwise it is the text before the first blank line followed by
    one newline.  It never has a blank line itself, and shortening it again
    changes nothing. *)
Theorem short_description_first_paragraph (s : string) :
  (~ blank_line s -> short_description_of s = s)
  /\ (forall p r,
        s = p +:+ String JsString.newline (String JsString.newline r) ->
        ~ blank_line (p +:+ String JsString.newline "") ->
        short_description_of s = p +:+ String JsString.newline "")
  /\ ~ blank_line (short_description_of s)
  /\ short_description_of (short_description_of s) = short_description_of s.
Proof.
  split; [apply short_description_no_blank|].
  split; [intros p r -> H; now apply short_description_prefix|].
  split; [apply short_description_is_short|].
  apply short_description_no_blank, short_description_is_short.
Qed.

(** ** Argument types and their warnings *)

Lemma has_char_trim (c : ascii) (s : string) :
  has_char c (trim s) -> has_char c s.
Proof.
  destruct (trim_spec s) as [(n & m & E) _]. intros H.
  unfold has_char in *. rewrite E, !list_ascii_of_append.
  apply in_or_app. right. apply in_or_app. now left.
Qed.

(** X3. No entry of an argument's [types] holds a ["|"]; and when the type
    string has a ["|"], every entry is trimmed: it has a space at neither
    end. *)
Theorem argument_type_entries (memberName : string) (p : Param) :
  let types := a_types (translate_param memberName p).1 in
  Forall (fun t => ~ has_char "|" t) types
  /\ (has_char "|" (p_type p) ->
      Forall (fun t => (forall u, t <> String JsString.space u)
                       /\ ~ ends_with JsString.space t) types).
Proof.
  unfold translate_param, arg_types.
  destruct (0 <=? JsString.indexOf "|" (p_type p)) eqn:Ep;
    [apply indexOf_nonneg in Ep | apply indexOf_negative in Ep].
  - cbn -[JsString.split]. split.
    + apply Forall_fmap.
      eapply Forall_impl; [apply split_segments|].
      intros seg Hseg H. apply Hseg. now apply has_char_trim.
    + intros _. apply Forall_fmap, List.Forall_forall. intros seg _. cbn.
      destruct (trim_spec seg) as (_ & H1 & H2). now split.
  - destruct (0 <=? JsString.indexOf "," (p_type p)); cbn.
    + split; [constructor | contradiction].
    + split; [repeat constructor; exact Ep | contradiction].
Qed.

Lemma translate_param_warning (memberName : string) (p : Param) :
  (translate_param memberName p).2
  = if comma_only p then [WarnCommaTypes memberName] else [].
Proof.
  unfold translate_param, arg_types, comma_only.
  destruct (0 <=? JsString.indexOf "|" (p_type p));
    [reflexivity|].
  now destruct (0 <=? JsString.indexOf "," (p_type p)).
Qed.

(** X4. Translating a parameter list gives one argument per parameter, and
    one comma warning, naming the member, per parameter whose type has a
    [","] and no ["|"], in the order of the parameters. *)
Theorem translate_params_warnings (memberName : string) (ps : list Param) :
  length (translate_params memberName ps).1 = length ps
  /\ (translate_params memberName ps).2
     = (fun _ => WarnCommaTypes memberName) <$> List.filter comma_only ps.
Proof.
  induction ps as [|p ps [IH1 IH2]]; [split; reflexivity|].
  cbn [translate_params List.filter].
  pose proof (translate_param_warning memberName p) as Hw.
  destruct (translate_param memberName p) as [a w].
  destruct (translate_params memberName ps) as [args ws].
  cbn in *. subst w ws. split; [now rewrite IH1|].
  now destruct (comma_only p).
Qed.

(** ** The id of a bound twin *)

Lemma bound_scan_Some (r r' : list ascii) :
  bound_scan r = Some r' ->
  exists r1 e r2,
    r = (r1 ++ "."%char :: e :: r2)%list
    /\ r' = (r1 ++ "#"%char :: e :: r2)%list
    /\ Forall (fun c => JsString.is_line_terminator c = false) (e :: r1).
Proof.
  revert r'. induction r as [|d r IH]; intros r' H; [discriminate H|].
  cbn [bound_scan] in H.
  destruct (JsString.is_line_terminator d) eqn:Ed; [discriminate H|].
  destruct (Ascii.eqb d ".") eqn:E.
  - apply Ascii.eqb_eq in E. subst d.
    destruct r as [|e r]; [discriminate H|].
    destruct (JsString.is_line_terminator e) eqn:Ee; [discriminate H|].
    injection H as <-. exists [], e, r. repeat split. now repeat constructor.
  - destruct (bound_scan r) as [r0|]; [|discriminate H].
    injection H as <-.
    destruct (IH r0 eq_refl) as (r1 & e & r2 & -> & -> & Hall).
    exists (d :: r1), e, r2. repeat split.
    apply Forall_cons in Hall as [He Hall]. now repeat constructor.
Qed.

(** X5. Rewriting an id for the bound twin changes at most one character:
    the id comes back as it is, or it is [a.b] with [a] and [b] not empty
    and comes back as [a#b], where no line terminator stands in [b] or at
    the end of [a].  The length is always the same. *)
Theorem bound_id_cases (id : string) :
  (bound_id id = id
   \/ exists a e b,
        id = (a +:+ String e "") +:+ "." +:+ b
        /\ bound_id id = (a +:+ String e "") +:+ "#" +:+ b
        /\ b <> ""
        /\ JsString.is_line_terminator e = false
        /\ Forall (fun c => JsString.is_line_terminator c = false)
             (list_ascii_of_string b))
  /\ String.length (bound_id id) = String.length id.
Proof.
  unfold bound_id.
  destruct (rev (list_ascii_of_string id)) as [|c r] eqn:Er;
    [split; [now left | reflexivity]|].
  destruct (JsString.is_line_terminator c) eqn:Ec;
    [split; [now left | reflexivity]|].
  destruct (bound_scan r) as [r'|] eqn:Es; [|split; [now left | reflexivity]].
  destruct (bound_scan_Some r r' Es) as (r1 & e & r2 & -> & -> & Hall).
  apply Forall_cons in Hall as [He Hall].
  assert (Eid : id = (string_of_list_ascii (rev r2) +:+ String e "")
                     +:+ "." +:+ string_of_list_ascii (rev r1 ++ [c])).
  { rewrite <- (string_of_list_ascii_of_string id).
    rewrite <- (rev_involutive (list_ascii_of_string id)), Er.
    cbn [rev]. rewrite rev_app_distr. cbn [rev].
    rewrite <- !app_assoc. cbn [app].
    rewrite !string_of_list_ascii_app. cbn [string_of_list_ascii].
    rewrite !string_of_list_ascii_app. cbn [string_of_list_ascii].
    now rewrite !append_assoc. }
  assert (Eres : string_of_list_ascii (rev (c :: r1 ++ "#"%char :: e :: r2))
                 = (string_of_list_ascii (rev r2) +:+ String e "")
                     +:+ "#" +:+ string_of_list_ascii (rev r1 ++ [c])).
  { cbn [rev]. rewrite rev_app_distr. cbn [rev].
    rewrite <- !app_assoc. cbn [app].
    rewrite !string_of_list_ascii_app. cbn [string_of_list_ascii].
    rewrite !string_of_list_ascii_app. cbn [string_of_list_ascii].
    now rewrite !append_assoc. }
  split.
  - right. exists (string_of_list_ascii (rev r2)), e,
      (string_of_list_ascii (rev r1 ++ [c])).
    split; [exact Eid|]. split; [exact Eres|].
    split; [|split; [exact He|]].
    + intros E. apply (f_equal list_ascii_of_string) in E.
      rewrite list_ascii_of_string_of_list_ascii in E.
      now destruct (rev r1).
    + rewrite list_ascii_of_string_of_list_ascii.
      apply Forall_app. split; [now apply Forall_rev | now repeat constructor].
  - rewrite Eres. apply (f_equal String.length) in Eid.
    rewrite Eid, !length_append. reflexivity.
Qed.

(** ** The members pass as a whole *)

Lemma member_translation_fields (memberName : string) (d : Docset) :
  writes_node d = true ->
  plain_node memberName (member_translation memberName d)
  /\ n_type (member_translation memberName d) = d_tagname d.
Proof.
  unfold writes_node, member_translation. intros Hw.
  destruct (String.eqb (d_tagname d) "method" || is_event d) eqn:E.
  - assert (Hty : (if is_event d then "event" else "method") = d_tagname d).
    { unfold is_event in *. apply orb_true_iff in E.
      destruct (String.eqb (d_tagname d) "event") eqn:E'.
      - now apply String.eqb_eq in E'.
      - destruct E as [E | E]; [now apply String.eqb_eq in E | discriminate]. }
    destruct (complete_member_fields memberName
                (if is_event d then "event" else "method") d) as [H1 H2];
      [now destruct (is_event d)|].
    split; [exact H1 | now rewrite H2].
  - cbn in Hw. apply is_value_kind_spec in Hw.
    unfold plain_node. cbn. repeat split.
    destruct Hw as [-> | [-> | ->]]; discriminate.
Qed.

(** What a step that ends in a state has done. *)
Lemma member_step_Done (opts : Options) (file : string) (st st' : AsmState)
  (d : Docset) :
  member_step opts file st d = Done st' ->
  let name := member_name opts (classPrefix st) d in
  fatal_name opts st d = false
  /\ classPrefix st' = (resolve_prefix opts (classPrefix st) d).1
  /\ ((writes_node d = true /\ documented d
       /\ nodes st' = obj_set name (member_translation name d) (nodes st))
      \/ (writes_node d = false /\ nodes st' = nodes st
          /\ warnings st'
             = (warnings st ++ [WarnUnknownTag (d_tagname d) file])%list)).
Proof.
  rewrite member_step_unfold. cbv zeta.
  destruct (fatal_name opts st d); [discriminate|].
  unfold writes_node, member_translation, member_node, value_node,
    createBasicTranslation, documented.
  destruct (String.eqb (d_tagname d) "method" || is_event d).
  - destruct (d_inheritdoc d) as [ih|] eqn:Ei, (d_doc d) as [doc|] eqn:Ed;
      try discriminate; intros [= <-];
      (split; [reflexivity|]; split; [reflexivity|]; left;
       split; [reflexivity|]; split; [eauto | reflexivity]).
  - destruct (is_value_kind (d_tagname d)).
    + destruct (d_inheritdoc d) as [ih|] eqn:Ei, (d_doc d) as [doc|] eqn:Ed;
        try discriminate; intros [= <-];
        (split; [reflexivity|]; split; [reflexivity|]; left;
         split; [reflexivity|]; split; [eauto | reflexivity]).
    + intros [= <-]. split; [reflexivity|]. split; [reflexivity|].
      right. repeat split.
Qed.

Lemma resolve_prefix_stable (opts : Options) (cp : option string)
  (i j : Docset) :
  resolve_prefix opts (resolve_prefix opts cp j).1 i = resolve_prefix opts cp i.
Proof.
  rewrite !resolve_prefix_cases.
  destruct cp as [c|], (globalNS opts) as [g|]; cbn [fst]; try reflexivity.
  destruct (String.eqb g "") eqn:E; cbn [fst]; rewrite ?E; reflexivity.
Qed.

(** A property of the state that every successful step keeps holds after
    the pass. *)
Lemma members_invariant (opts : Options) (file : string)
  (P : AsmState -> Prop) (l : list Docset) :
  (forall st d st', In d l -> P st ->
     member_step opts file st d = Done st' -> P st') ->
  forall st st', P st -> members opts file l st = Done st' -> P st'.
Proof.
  induction l as [|d l IH]; intros Hstep st st' HP Hrun.
  - now injection Hrun as <-.
  - cbn [members] in Hrun.
    destruct (member_step opts file st d) as [st1| |] eqn:E;
      try discriminate Hrun.
    apply (IH (fun st0 d0 st0' Hin => Hstep st0 d0 st0' (or_intror Hin))
              st1 st'); [|exact Hrun].
    apply (Hstep st d st1); [now left | exact HP | exact E].
Qed.

Lemma members_prefix (opts : Options) (file : string) (l : list Docset)
  (st st' : AsmState) :
  members opts file l st = Done st' ->
  forall i, resolve_prefix opts (classPrefix st') i
            = resolve_prefix opts (classPrefix st) i.
Proof.
  apply (members_invariant opts file
           (fun s => forall i, resolve_prefix opts (classPrefix s) i
                               = resolve_prefix opts (classPrefix st) i)).
  - intros s d s' _ Hs Hstep i.
    apply member_step_Done in Hstep as (_ & -> & _).
    now rewrite resolve_prefix_stable.
  - reflexivity.
Qed.

(** X6. The id of a docset does not depend on what the members pass has
    seen before it: after any run of the pass that ends in a state, every
    docset gets the name it would have got at the start. *)
Theorem members_keep_names (opts : Options) (file : string)
  (l : list Docset) (st st' : AsmState) (i : Docset) :
  members opts file l st = Done st' ->
  member_name opts (classPrefix st') i = member_name opts (classPrefix st) i.
Proof.
  intros H. unfold member_name. now rewrite (members_prefix _ _ _ _ _ H).
Qed.

Lemma members_keep_names_witness :
  let opts := {| globalNS := Some "NS" |} in
  let l := [plain_docset "method" "a" (Some "d");
            plain_docset "event" "b" (Some "d")] in
  let c := plain_docset "method" "c" None in
  exists st',
    members opts "f.js" l initial_state = Done st'
    /\ member_name opts (classPrefix st') c
       = member_name opts (classPrefix initial_state) c.
Proof.
  intros opts l c. eexists. split; [reflexivity|].
  apply (members_keep_names opts "f.js" l initial_state _ c). reflexivity.
Defined.

(** ** When the run stops *)

Lemma fatal_docset_prefix (opts : Options) (cp : option string)
  (d j : Docset) :
  fatal_docset opts (resolve_prefix opts cp j).1 d = fatal_docset opts cp d.
Proof.
  unfold fatal_docset, member_name. now rewrite resolve_prefix_stable.
Qed.

Lemma find_ext {A} (f g : A -> bool) (l : list A) :
  (forall x, f x = g x) -> List.find f l = List.find g l.
Proof.
  intros H. induction l as [|x l IH]; [reflexivity|].
  cbn. now rewrite H, IH.
Qed.

(** On documented docsets the pass stops at the first docset that fails
    the name test, and nowhere else. *)
Lemma members_outcome (opts : Options) (file : string) (l : list Docset)
  (st : AsmState) :
  Forall documented l ->
  match List.find (fatal_docset opts (classPrefix st)) l with
  | Some d => members opts file l st = FatalName d
  | None => exists st', members opts file l st = Done st'
  end.
Proof.
  revert st. induction l as [|d l IH]; intros st Hall; [now exists st|].
  apply Forall_cons in Hall as [Hd Hall].
  cbn [List.find members].
  change (fatal_docset opts (classPrefix st) d) with (fatal_name opts st d).
  destruct (fatal_name opts st d) eqn:Hf.
  - rewrite member_step_unfold. cbv zeta. now rewrite Hf.
  - destruct (member_step_effect opts file st d Hd Hf) as (st1 & E & Hcp & _).
    rewrite E. cbn [mbind Outcome_bind].
    specialize (IH st1 Hall). rewrite Hcp in IH.
    now rewrite (find_ext _ _ l (fun x => fatal_docset_prefix opts _ x d)) in IH.
Qed.

Lemma process_jsd_unfold `{Enumeration} (merged : list Docset)
  (file : string) (opts : Options) :
  process_jsd merged file opts =
  (st ← members opts file (survivors merged)
         {| nodes := fold_left put_class
                       (List.filter is_class_docset merged) [];
            classPrefix := owning_prefix merged;
            warnings := [] |};
   mret (post_process file (snd <$> enumerate (nodes st)), warnings st)).
Proof.
  unfold process_jsd, survivors, owning_prefix. rewrite grab_class_spec.
  cbn [mbind Outcome_bind fst snd initial_state nodes classPrefix warnings].
  now destruct (last (List.filter is_class_docset merged)).
Qed.

Lemma survivors_documented (merged : list Docset) :
  Forall documented (survivors merged).
Proof. apply filter_docsets_documented. Qed.

(** X7. [process_jsd] takes the fatal path exactly when some docset that
    reaches the members pass has an improper name and no [inheritdoc]; it
    then reports the first such docset, and the callback is not called.
    In every other case the callback gets a map.  The names are the ones
    under the prefix that the class pass leaves. *)
Theorem fatal_or_delivered `{Enumeration} (merged : list Docset)
  (file : string) (opts : Options) :
  let first_bad :=
    List.find (fatal_docset opts (owning_prefix merged)) (survivors merged) in
  (forall d, process_jsd merged file opts = FatalName d
             <-> first_bad = Some d)
  /\ ((exists result ws, process_jsd merged file opts = Done (result, ws))
      <-> first_bad = None).
Proof.
  intros first_bad. rewrite process_jsd_unfold.
  match goal with |- context [members opts file ?l ?st] =>
    pose proof (members_outcome opts file l st (survivors_documented merged))
      as Hout
  end.
  cbn [classPrefix] in Hout. fold first_bad in Hout.
  destruct first_bad as [b|].
  - rewrite Hout. cbn [mbind Outcome_bind]. split.
    + intros d. split; [now intros [= ->] | now intros [= ->]].
    + split; [intros (r & ws & [=]) | discriminate].
  - destruct Hout as [st' ->]. cbn. split.
    + intros d. split; discriminate.
    + split; [reflexivity | eauto].
Qed.

(** ** Where the delivered nodes come from *)

Lemma obj_set_Forall (P : string * Node -> Prop) (k : string) (v : Node)
  (o : list (string * Node)) :
  Forall P o -> P (k, v) -> Forall P (obj_set k v o).
Proof.
  intros Ho Hv. unfold obj_set.
  destruct (String.eqb k proto_key); [exact Ho | now apply assoc_set_Forall].
Qed.

Lemma put_class_Forall (P : string * Node -> Prop) (classes : list Docset)
  (o : list (string * Node)) :
  (forall c, In c classes -> P (d_name c, class_translation c)) ->
  Forall P o -> Forall P (fold_left put_class classes o).
Proof.
  revert o. induction classes as [|c classes IH]; intros o Hc Ho; [exact Ho|].
  cbn [fold_left]. apply IH; [intros c' Hin; apply Hc; now right|].
  apply obj_set_Forall; [exact Ho | apply Hc; now left].
Qed.

Lemma survivors_In (merged : list Docset) (d : Docset) :
  In d (survivors merged)
  <-> In d merged /\ is_class_docset d = false /\ keep_docset d = true.
Proof.
  unfold survivors, filter_docsets. rewrite !filter_In, negb_true_iff. tauto.
Qed.

(** Every node that the callback receives is the stamped translation of
    one docset of the input, stored under ["."] and its id. *)
Lemma delivered_provenance `{Enumeration} (merged : list Docset)
  (file : string) (opts : Options) (result : gmap string Node)
  (ws : list Warning) (k : string) (n : Node) :
  process_jsd merged file opts = Done (result, ws) ->
  result !! k = Some n ->
  exists d n0,
    In d merged /\ built_from d n0 /\ plain_node (n_id n0) n0
    /\ n = stamp file n0 /\ k = "." +:+ n_id n0.
Proof.
  rewrite process_jsd_unfold.
  set (Q := fun kn : string * Node =>
              plain_node kn.1 kn.2
              /\ exists d, In d merged /\ built_from d kn.2).
  set (st0 := {| nodes := fold_left put_class
                            (List.filter is_class_docset merged) [];
                 classPrefix := owning_prefix merged; warnings := [] |}).
  destruct (members opts file (survivors merged) st0) as [st'| |] eqn:Hrun;
    try discriminate.
  cbn [mbind Outcome_bind mret Outcome_ret]. intros [= <- _] Hk.
  assert (HQ : Forall Q (nodes st')).
  { apply (members_invariant opts file (fun s => Forall Q (nodes s))
             (survivors merged)) with (st := st0); [| |exact Hrun].
    - intros s d s' (Hin & Hnc & Hkeep)%survivors_In Hs Hstep.
      apply member_step_Done in Hstep
        as (_ & _ & [(Hw & Hd & ->) | (_ & -> & _)]); [|exact Hs].
      apply obj_set_Forall; [exact Hs|].
      destruct (member_translation_fields
                  (member_name opts (classPrefix s) d) d Hw) as [Hp Ht].
      split; [exact Hp|]. exists d. split; [exact Hin|]. right.
      cbn [snd]. destruct Hp as [-> _]. auto.
    - apply put_class_Forall; [|constructor].
      intros c [Hin Hc]%filter_In.
      destruct (class_translation_fields c) as (H1 & H2 & _ & _ & _ & H3 & H4).
      split.
      + unfold plain_node. cbn [fst snd]. rewrite H1, H2, H3, H4.
        now repeat split.
      + exists c. split; [exact Hin | now left]. }
  pose proof (enumerate_perm (nodes st')) as Hp.
  assert (HQ' : Forall (fun n0 => Q (n_id n0, n0))
                  (snd <$> enumerate (nodes st'))).
  { apply Forall_fmap. rewrite Hp. eapply Forall_impl; [exact HQ|].
    intros [k' n'] [Hpl Hd]. cbn in *. destruct Hpl as [Hid Hrest].
    rewrite Hid. split; [now split | exact Hd]. }
  assert (Hplain : Forall (fun n0 => plain_node (n_id n0) n0)
                     (snd <$> enumerate (nodes st'))).
  { eapply Forall_impl; [exact HQ'|]. now intros n0 [Hpl _]. }
  destruct (post_fold_stored file _ k n ∅ Hplain Hk)
    as [H0 | (n0 & Hin & -> & ->)]; [now rewrite lookup_empty in H0|].
  rewrite List.Forall_forall in HQ'.
  destruct (HQ' n0 Hin) as [Hpl (d & Hd & Hb)].
  exists d, n0. auto.
Qed.

Lemma stamp_keeps (file : string) (n : Node) :
  n_aliases (stamp file n) = Some []
  /\ n_children (stamp file n) = Some []
  /\ n_subclasses (stamp file n)
     = (if String.eqb "class" (n_type n) then Some [] else n_subclasses n)
  /\ n_signatures (stamp file n) = n_signatures n
  /\ n_arguments (stamp file n) = n_arguments n
  /\ n_inherits (stamp file n) = n_inherits n
  /\ n_allowchild (stamp file n) = n_allowchild n
  /\ n_define (stamp file n) = n_define n
  /\ n_cancelable (stamp file n) = n_cancelable n
  /\ n_bubbles (stamp file n) = n_bubbles n
  /\ n_line (stamp file n) = n_line n
  /\ n_inheritdoc (stamp file n) = n_inheritdoc n
  /\ n_description (stamp file n) = n_description n
  /\ n_short_description (stamp file n) = n_short_description n
  /\ n_private (stamp file n) = n_private n
  /\ n_experimental (stamp file n) = n_experimental n
  /\ n_chainable (stamp file n) = n_chainable n
  /\ n_related_to (stamp file n) = n_related_to n
  /\ n_author (stamp file n) = n_author n
  /\ n_version (stamp file n) = n_version n
  /\ n_since (stamp file n) = n_since n.
Proof.
  unfold stamp. cbv zeta.
  replace (n_type (set_file file (set_children [] (set_aliases [] n))))
    with (n_type n) by now destruct n.
  destruct (String.eqb "class" (n_type n)); destruct n; repeat split.
Qed.

Lemma writes_node_tag (d : Docset) :
  writes_node d = true ->
  (String.eqb (d_tagname d) "method" || is_event d = true
   /\ (if is_event d then "event" else "method") = d_tagname d)
  \/ (String.eqb (d_tagname d) "method" || is_event d = false
      /\ (d_tagname d = "property" \/ d_tagname d = "attribute"
          \/ d_tagname d = "binding")).
Proof.
  unfold writes_node, is_event. intros H.
  destruct (String.eqb (d_tagname d) "event") eqn:Ee.
  - left. rewrite orb_true_r. split; [reflexivity|].
    now apply String.eqb_eq in Ee.
  - destruct (String.eqb (d_tagname d) "method") eqn:Em.
    + left. split; [reflexivity|]. now apply String.eqb_eq in Em.
    + right. split; [reflexivity|]. now apply is_value_kind_spec.
Qed.

(** The text fields of a translation are those of its docset. *)
Lemma built_from_text (d : Docset) (n : Node) :
  built_from d n ->
  n_line n = d_linenr d
  /\ n_private n = d_private d
  /\ n_experimental n = d_experimental d
  /\ n_chainable n = d_chainable d
  /\ n_related_to n = see_name <$> d_see d
  /\ n_version n = tag_doc <$> d_version d
  /\ n_since n = tag_doc <$> d_since d
  /\ n_inheritdoc n = inheritdoc_src <$> d_inheritdoc d
  /\ n_description n = (if d_inheritdoc d is Some _ then None else d_doc d)
  /\ n_short_description n
     = (if d_inheritdoc d is Some _ then None
        else short_description_of <$> d_doc d)
  /\ (d_inheritdoc d = None -> is_Some (d_doc d)).
Proof.
  intros [[Hc ->] | (_ & Hd & Hw & Hn)].
  - apply is_class_docset_spec in Hc as [_ Hdoc].
    unfold class_translation, complete_class.
    destruct (d_inherits d) as [[|x l]|], (d_allowchild d), (d_define d);
      cbn; repeat split; auto.
  - set (name := n_id n) in Hn. clearbody name. subst n.
    assert (Hdoc : d_inheritdoc d = None -> is_Some (d_doc d)).
    { intros E. destruct Hd as [Hd | [x Hx]]; [exact Hd | congruence]. }
    unfold member_translation.
    destruct (writes_node_tag d Hw) as [[-> _] | [-> _]].
    + unfold complete_member.
      destruct (d_params d) as [ps|];
        [destruct (translate_params name ps) as [args ws]|];
        destruct (is_event d), (d_bubbles d), (d_cancelable d);
        cbn; repeat split; auto.
    + cbn. repeat split; auto.
Qed.

(** The kind-specific fields of a translation. *)
Lemma built_from_kind (d : Docset) (n : Node) :
  built_from d n ->
  n_subclasses n = None
  /\ ((n_type n = "class" /\ n_signatures n = None /\ n_arguments n = None
       /\ n_cancelable n = None /\ n_bubbles n = None)
      \/ ((n_type n = "method" \/ n_type n = "event"
           \/ n_type n = "property" \/ n_type n = "attribute"
           \/ n_type n = "binding")
          /\ n_type n = d_tagname d
          /\ (exists sig, n_signatures n = Some [sig]
                          /\ sig_arguments sig = n_arguments n)
          /\ n_inherits n = None /\ n_allowchild n = None
          /\ n_define n = None
          /\ (n_type n <> "event" ->
              n_cancelable n = None /\ n_bubbles n = None)
          /\ (n_type n <> "method" -> n_type n <> "event" ->
              n_arguments n = None))).
Proof.
  intros [[Hc ->] | (_ & Hd & Hw & Hn)].
  - unfold class_translation, complete_class.
    destruct (d_inherits d) as [[|x l]|], (d_allowchild d), (d_define d);
      cbn; (split; [reflexivity | left; repeat split]).
  - set (name := n_id n) in Hn. clearbody name. subst n.
    unfold member_translation.
    destruct (writes_node_tag d Hw) as [[-> Ht] | [-> Ht]].
    + unfold complete_member. rewrite <- Ht.
      destruct (d_params d) as [ps|];
        [destruct (translate_params name ps) as [args ws]|];
        destruct (is_event d), (d_bubbles d), (d_cancelable d);
        cbn; (split; [reflexivity|]; right);
        (split; [auto|]); (split; [reflexivity|]);
        (split; [eexists; split; reflexivity|]);
        repeat split; intros; try reflexivity; try congruence.
    + cbn. split; [reflexivity|]. right.
      split; [tauto|]. split; [reflexivity|].
      split; [eexists; split; reflexivity|].
      repeat split.
Qed.

(** X8. Every node that the callback receives is stored under ["."]
    followed by its id, carries the file name and empty [aliases] and
    [children], has an empty [subclasses] exactly when it is a class, and
    has neither [section] nor [bound]. *)
Theorem delivered_nodes_are_stamped `{Enumeration} (merged : list Docset)
  (file : string) (opts : Options) (result : gmap string Node)
  (ws : list Warning) (k : string) (n : Node) :
  process_jsd merged file opts = Done (result, ws) ->
  result !! k = Some n ->
  k = "." +:+ n_id n
  /\ n_file n = Some file
  /\ n_aliases n = Some [] /\ n_children n = Some []
  /\ n_subclasses n = (if String.eqb "class" (n_type n) then Some [] else None)
  /\ n_section n = None /\ n_bound n = None.
Proof.
  intros Hrun Hk.
  destruct (delivered_provenance merged file opts result ws k n Hrun Hk)
    as (d & n0 & _ & Hb & (_ & Hbound & Hsec & _) & -> & ->).
  destruct (stamp_fields file n0) as (H1 & H2 & H3 & H4 & H5).
  destruct (stamp_keeps file n0) as (K1 & K2 & K3 & _).
  destruct (built_from_kind d n0 Hb) as [Hsub _].
  rewrite H1, H2, H3, H4, H5, K1, K2, K3, Hsub, Hbound, Hsec.
  repeat split.
Qed.

(** X9. A delivered node is a class node, which has no [signatures] at
    all and no [arguments], or it is a method, event, property, attribute
    or binding node, which has exactly one signature, whose [arguments] is
    the node's own, and none of [inherits], [allowchild], [define]; only
    an event can have [cancelable] or [bubbles], only a method or an event
    can have [arguments]. *)
Theorem delivered_node_kinds `{Enumeration} (merged : list Docset)
  (file : string) (opts : Options) (result : gmap string Node)
  (ws : list Warning) (k : string) (n : Node) :
  process_jsd merged file opts = Done (result, ws) ->
  result !! k = Some n ->
  (n_type n = "class" /\ n_signatures n = None /\ n_arguments n = None
   /\ n_cancelable n = None /\ n_bubbles n = None)
  \/ ((n_type n = "method" \/ n_type n = "event" \/ n_type n = "property"
       \/ n_type n = "attribute" \/ n_type n = "binding")
      /\ (exists sig, n_signatures n = Some [sig]
                      /\ sig_arguments sig = n_arguments n)
      /\ n_inherits n = None /\ n_allowchild n = None /\ n_define n = None
      /\ (n_type n <> "event" -> n_cancelable n = None /\ n_bubbles n = None)
      /\ (n_type n <> "method" -> n_type n <> "event" ->
          n_arguments n = None)).
Proof.
  intros Hrun Hk.
  destruct (delivered_provenance merged file opts result ws k n Hrun Hk)
    as (d & n0 & _ & Hb & _ & -> & _).
  destruct (stamp_fields file n0) as (_ & H2 & _).
  destruct (stamp_keeps file n0)
    as (_ & _ & _ & K4 & K5 & K6 & K7 & K8 & K9 & K10 & _).
  rewrite H2, K4, K5, K6, K7, K8, K9, K10.
  destruct (built_from_kind d n0 Hb) as [_ [Hc | Hm]]; [now left | right].
  destruct Hm as (Hty & _ & Hrest). now split.
Qed.

(** X10. Every delivered node takes its text from one docset of the
    input: the line number and the optional fields as they are; with
    [inheritdoc], the source of the inheritance and neither description nor
    short description, whatever the docset's [doc]; without it, the
    description, which is then defined, and its short description. *)
Theorem delivered_node_text `{Enumeration} (merged : list Docset)
  (file : string) (opts : Options) (result : gmap string Node)
  (ws : list Warning) (k : string) (n : Node) :
  process_jsd merged file opts = Done (result, ws) ->
  result !! k = Some n ->
  exists d,
    In d merged
    /\ n_type n = (if is_class_docset d then "class" else d_tagname d)
    /\ n_line n = d_linenr d
    /\ n_private n = d_private d
    /\ n_experimental n = d_experimental d
    /\ n_chainable n = d_chainable d
    /\ n_related_to n = see_name <$> d_see d
    /\ n_version n = tag_doc <$> d_version d
    /\ n_since n = tag_doc <$> d_since d
    /\ match d_inheritdoc d with
       | Some ih =>
           n_inheritdoc n = Some (inheritdoc_src ih)
           /\ n_description n = None /\ n_short_description n = None
       | None =>
           n_inheritdoc n = None
           /\ is_Some (n_description n)
           /\ n_description n = d_doc d
           /\ n_short_description n = short_description_of <$> d_doc d
       end.
Proof.
  intros Hrun Hk.
  destruct (delivered_provenance merged file opts result ws k n Hrun Hk)
    as (d & n0 & Hin & Hb & _ & -> & _).
  destruct (stamp_fields file n0) as (_ & H2 & _).
  destruct (stamp_keeps file n0)
    as (_ & _ & _ & _ & _ & _ & _ & _ & _ & _ & K11 & K12 & K13 & K14 & K15
        & K16 & K17 & K18 & _ & K20 & K21).
  destruct (built_from_text d n0 Hb)
    as (T1 & T2 & T3 & T4 & T5 & T6 & T7 & T8 & T9 & T10 & T11).
  exists d. split; [exact Hin|].
  rewrite H2, K11, K12, K13, K14, K15, K16, K17, K18, K20, K21.
  rewrite T1, T2, T3, T4, T5, T6, T7, T8, T9, T10.
  split.
  { destruct Hb as [[Hc ->] | (Hc & _ & Hw & Hn)]; rewrite Hc.
    - now destruct (class_translation_fields d) as (_ & -> & _).
    - rewrite Hn. now apply member_translation_fields. }
  repeat (split; [reflexivity|]).
  destruct (d_inheritdoc d) as [ih|]; [repeat split|].
  specialize (T11 eq_refl). repeat split. exact T11.
Qed.

Lemma delivered_nodes_are_stamped_witness :
  exists result ws n,
    @process_jsd insertion_order
      [plain_docset "class" "Foo" (Some "A class.");
       plain_docset "event" "change" (Some "An event.")]
      "f.js" {| globalNS := Some "NS" |} = Done (result, ws)
    /\ result !! ".Foo@change" = Some n
    /\ ".Foo@change" = "." +:+ n_id n
    /\ n_file n = Some "f.js"
    /\ n_aliases n = Some [] /\ n_children n = Some []
    /\ n_subclasses n
       = (if String.eqb "class" (n_type n) then Some [] else None)
    /\ n_section n = None /\ n_bound n = None.
Proof.
  eexists _, _, _.
  split; [reflexivity|]. split; [vm_compute; reflexivity|].
  eapply (@delivered_nodes_are_stamped insertion_order
           [plain_docset "class" "Foo" (Some "A class.");
            plain_docset "event" "change" (Some "An event.")]
           "f.js" {| globalNS := Some "NS" |} _ _ ".Foo@change" _);
    [reflexivity | vm_compute; reflexivity].
Defined.

Lemma delivered_node_kinds_witness :
  exists result ws n,
    @process_jsd insertion_order
      [plain_docset "class" "Foo" (Some "A class.");
       plain_docset "event" "change" (Some "An event.")]
      "f.js" {| globalNS := Some "NS" |} = Done (result, ws)
    /\ result !! ".Foo" = Some n
    /\ ((n_type n = "class" /\ n_signatures n = None /\ n_arguments n = None
         /\ n_cancelable n = None /\ n_bubbles n = None)
        \/ ((n_type n = "method" \/ n_type n = "event"
             \/ n_type n = "property" \/ n_type n = "attribute"
             \/ n_type n = "binding")
            /\ (exists sig, n_signatures n = Some [sig]
                            /\ sig_arguments sig = n_arguments n)
            /\ n_inherits n = None /\ n_allowchild n = None
            /\ n_define n = None
            /\ (n_type n <> "event" ->
                n_cancelable n = None /\ n_bubbles n = None)
            /\ (n_type n <> "method" -> n_type n <> "event" ->
                n_arguments n = None))).
Proof.
  eexists _, _, _.
  split; [reflexivity|]. split; [vm_compute; reflexivity|].
  eapply (@delivered_node_kinds insertion_order
           [plain_docset "class" "Foo" (Some "A class.");
            plain_docset "event" "change" (Some "An event.")]
           "f.js" {| globalNS := Some "NS" |} _ _ ".Foo" _);
    [reflexivity | vm_compute; reflexivity].
Defined.

Lemma delivered_node_text_witness :
  exists result ws n,
    @process_jsd insertion_order
      [plain_docset "class" "Foo" (Some "A class.");
       plain_docset "event" "change" (Some "An event.")]
      "f.js" {| globalNS := Some "NS" |} = Done (result, ws)
    /\ result !! ".Foo@change" = Some n
    /\ exists d,
         In d [plain_docset "class" "Foo" (Some "A class.");
               plain_docset "event" "change" (Some "An event.")]
         /\ n_type n = (if is_class_docset d then "class" else d_tagname d)
         /\ n_line n = d_linenr d
         /\ n_private n = d_private d
         /\ n_experimental n = d_experimental d
         /\ n_chainable n = d_chainable d
         /\ n_related_to n = see_name <$> d_see d
         /\ n_version n = tag_doc <$> d_version d
         /\ n_since n = tag_doc <$> d_since d
         /\ match d_inheritdoc d with
            | Some ih =>
                n_inheritdoc n = Some (inheritdoc_src ih)
                /\ n_description n = None /\ n_short_description n = None
            | None =>
                n_inheritdoc n = None
                /\ is_Some (n_description n)
                /\ n_description n = d_doc d
                /\ n_short_description n = short_description_of <$> d_doc d
            end.
Proof.
  eexists _, _, _.
  split; [reflexivity|]. split; [vm_compute; reflexivity|].
  eapply (@delivered_node_text insertion_order
           [plain_docset "class" "Foo" (Some "A class.");
            plain_docset "event" "change" (Some "An event.")]
           "f.js" {| globalNS := Some "NS" |} _ _ ".Foo@change" _);
    [reflexivity | vm_compute; reflexivity].
Defined.

(** ** Which docset a delivered node belongs to *)

Lemma initial_nodes_well_formed (merged : list Docset) :
  well_formed (fold_left put_class (List.filter is_class_docset merged) []).
Proof. apply put_class_well_formed. split; constructor. Qed.

Lemma members_split (opts : Options) (file : string) (l1 l2 : list Docset)
  (st st' : AsmState) :
  members opts file (l1 ++ l2)%list st = Done st' ->
  exists st1, members opts file l1 st = Done st1
              /\ members opts file l2 st1 = Done st'.
Proof.
  rewrite members_app.
  destruct (members opts file l1 st) as [st1| |]; try discriminate.
  intros Hrun. now exists st1.
Qed.

Lemma obj_get_None (k : string) (o : list (string * Node)) :
  obj_get k o = None -> ~ In k (o.*1).
Proof.
  induction o as [|[k' v'] o IH]; [intros _ []|].
  cbn [obj_get]. destruct (String.eqb k' k) eqn:E; [discriminate|].
  apply String.eqb_neq in E.
  intros Hn [Hk | Hk]; [now destruct E | now apply IH].
Qed.

(** A name that has no node in [nodes] has no entry in the delivered map. *)
Lemma post_process_absent `{Enumeration} (file : string)
  (o : list (string * Node)) (k : string) :
  well_formed o -> obj_get k o = None ->
  post_process file (snd <$> enumerate o) !! ("." +:+ k) = None.
Proof.
  intros [Hnd Hall] Hget.
  pose proof (enumerate_perm o) as Hp.
  unfold post_process. rewrite post_fold_other.
  - apply lookup_empty.
  - apply Forall_fmap. rewrite Hp. eapply Forall_impl; [exact Hall|].
    intros [k' n'] (Hid & Hrest). cbn in *. now rewrite Hid.
  - intros Hin. apply (obj_get_None k o Hget).
    apply list_elem_of_In in Hin.
    apply list_elem_of_fmap in Hin as (n & -> & Hn).
    apply list_elem_of_fmap in Hn as ([k' n'] & -> & Hkn).
    rewrite Hp in Hkn. rewrite Forall_forall in Hall.
    destruct (Hall _ Hkn) as [Hid _]. cbn in Hid. cbn [snd]. rewrite Hid.
    apply list_elem_of_In. apply list_elem_of_fmap.
    exists (k', n'). split; [reflexivity | exact Hkn].
Qed.

(** No pass creates an own property ["__proto__"] of [nodes]. *)
Lemma members_without_proto (opts : Options) (file : string)
  (l : list Docset) (st st' : AsmState) :
  members opts file l st = Done st' ->
  obj_get proto_key (nodes st) = None ->
  obj_get proto_key (nodes st') = None.
Proof.
  intros Hrun H0.
  apply (members_invariant opts file
           (fun s => obj_get proto_key (nodes s) = None) l)
    with (st := st) (st' := st'); [|exact H0 | exact Hrun].
  intros s d s' _ Hs Hstep.
  apply member_step_Done in Hstep
    as (_ & _ & [(_ & _ & ->) | (_ & -> & _)]); [|exact Hs].
  now rewrite obj_get_proto_set.
Qed.

(** So the delivered map has no entry under [".__proto__"]. *)
Lemma delivered_without_proto `{Enumeration} (merged : list Docset)
  (file : string) (opts : Options) (result : gmap string Node)
  (ws : list Warning) :
  process_jsd merged file opts = Done (result, ws) ->
  result !! ("." +:+ proto_key) = None.
Proof.
  rewrite process_jsd_unfold.
  set (st0 := {| nodes := fold_left put_class
                            (List.filter is_class_docset merged) [];
                 classPrefix := owning_prefix merged; warnings := [] |}).
  destruct (members opts file (survivors merged) st0) as [st'| |] eqn:Hm;
    try discriminate.
  cbn [mbind Outcome_bind mret Outcome_ret]. intros [= <- _].
  destruct (members_well_formed opts file (survivors merged) st0
              (survivors_documented merged)
              (initial_nodes_well_formed merged)) as [_ Hwf].
  apply post_process_absent; [now apply Hwf|].
  apply (members_without_proto opts file (survivors merged) st0 st' Hm).
  cbn [nodes st0]. now rewrite put_class_proto.
Qed.

(** X11. When several docsets get the same id, the last one wins: if the
    callback gets a map, then for a docset with a member tag that reaches
    the members pass, and after which no docset with a member tag gets the
    same id, the map holds that docset's node under ["."] and the id.  The
    one id that is stored nowhere is ["__proto__"]: the map has no entry
    under [".__proto__"]. *)
Theorem last_docset_of_an_id_wins `{Enumeration} (merged : list Docset)
  (file : string) (opts : Options) (result : gmap string Node)
  (ws : list Warning) (l1 l2 : list Docset) (d : Docset) :
  process_jsd merged file opts = Done (result, ws) ->
  survivors merged = (l1 ++ d :: l2)%list ->
  writes_node d = true ->
  let name := member_name opts (owning_prefix merged) d in
  (forall d', In d' l2 -> writes_node d' = true ->
     member_name opts (owning_prefix merged) d' <> name) ->
  result !! ("." +:+ name)
  = if String.eqb name proto_key then None
    else Some (stamp file (member_translation name d)).
Proof.
  intros Hrun Hsplit Hw name Hlater.
  destruct (String.eqb name proto_key) eqn:Hproto.
  { apply String.eqb_eq in Hproto. rewrite Hproto.
    exact (delivered_without_proto merged file opts result ws Hrun). }
  apply String.eqb_neq in Hproto.
  rewrite process_jsd_unfold in Hrun.
  set (st0 := {| nodes := fold_left put_class
                            (List.filter is_class_docset merged) [];
                 classPrefix := owning_prefix merged; warnings := [] |})
    in Hrun.
  destruct (members opts file (survivors merged) st0) as [st'| |] eqn:Hm;
    try discriminate Hrun.
  cbn in Hrun. injection Hrun as <- _.
  destruct (members_well_formed opts file (survivors merged) st0
              (survivors_documented merged)
              (initial_nodes_well_formed merged)) as [_ Hwf].
  specialize (Hwf st' Hm).
  apply post_process_lookup; [exact Hwf|].
  rewrite Hsplit in Hm.
  apply members_split in Hm as (st1 & H1 & H2).
  cbn [members] in H2.
  destruct (member_step opts file st1 d) as [st2| |] eqn:Hstep;
    try discriminate H2.
  cbn [mbind Outcome_bind] in H2.
  pose proof (members_prefix opts file l1 st0 st1 H1) as Hp1.
  cbn [classPrefix st0] in Hp1.
  assert (Hname : forall s i,
            (forall j, resolve_prefix opts (classPrefix s) j
                       = resolve_prefix opts (owning_prefix merged) j) ->
            member_name opts (classPrefix s) i
            = member_name opts (owning_prefix merged) i).
  { intros s i Hs. unfold member_name. now rewrite Hs. }
  pose proof (member_step_Done opts file st1 st2 d Hstep) as (_ & Hcp2 & Hn2).
  cbv zeta in Hn2. rewrite (Hname st1 d Hp1) in Hn2. fold name in Hn2.
  destruct Hn2 as [(_ & _ & Hn2) | (Hw' & _)]; [|congruence].
  apply (members_invariant opts file
           (fun s =>
              (forall j, resolve_prefix opts (classPrefix s) j
                         = resolve_prefix opts (owning_prefix merged) j)
              /\ obj_get name (nodes s)
                 = Some (member_translation name d)) l2)
    with (st := st2) (st' := st'); [| |exact H2].
  - intros s d' s' Hin [Hs Hget] Hstep'.
    pose proof (member_step_Done opts file s s' d' Hstep')
      as (_ & Hcp & Hn).
    cbv zeta in Hn. rewrite (Hname s d' Hs) in Hn.
    split.
    + intros j. rewrite Hcp, resolve_prefix_stable. apply Hs.
    + destruct Hn as [(Hw' & _ & ->) | (_ & -> & _)]; [|exact Hget].
      rewrite obj_get_set_ne; [exact Hget | now apply Hlater].
  - split.
    + intros j. rewrite Hcp2, resolve_prefix_stable. apply Hp1.
    + rewrite Hn2. now apply obj_get_set_eq.
Qed.

Lemma last_docset_of_an_id_wins_witness :
  let c := plain_docset "class" "Foo" (Some "A class.") in
  let m := plain_docset "method" "bar" (Some "A method.") in
  let p := value_docset "property" "bar" "A property." "Number" in
  exists result ws,
    @process_jsd insertion_order [c; m; p] "f.js" {| globalNS := Some "NS" |}
    = Done (result, ws)
    /\ result !! ("." +:+ "Foo.bar")
       = Some (stamp "f.js" (member_translation "Foo.bar" p)).
Proof.
  intros c m p. eexists _, _. split; [reflexivity|].
  apply (@last_docset_of_an_id_wins insertion_order [c; m; p] "f.js"
           {| globalNS := Some "NS" |} _ [] [m] [] p).
  - reflexivity.
  - reflexivity.
  - reflexivity.
  - intros d' [].
Defined.

(** X12. With [options.globalNS] defined, no member overwrites the node of
    the owning class: if the callback gets a map, the map holds the node of
    the last class docset that has a description, under ["."] and the
    class name.  The one class that has no node is a class named
    ["__proto__"]: the map has no entry under [".__proto__"]. *)
Theorem class_node_survives `{Enumeration} (merged : list Docset)
  (file : string) (opts : Options) (result : gmap string Node)
  (ws : list Warning) (c : Docset) (g : string) :
  globalNS opts = Some g ->
  last (List.filter is_class_docset merged) = Some c ->
  process_jsd merged file opts = Done (result, ws) ->
  result !! ("." +:+ d_name c)
  = if String.eqb (d_name c) proto_key then None
    else Some (stamp file (class_translation c)).
Proof.
  intros Hg Hlast Hrun.
  destruct (String.eqb (d_name c) proto_key) eqn:Hproto.
  { apply String.eqb_eq in Hproto. rewrite Hproto.
    exact (delivered_without_proto merged file opts result ws Hrun). }
  apply String.eqb_neq in Hproto.
  rewrite process_jsd_unfold in Hrun.
  set (st0 := {| nodes := fold_left put_class
                            (List.filter is_class_docset merged) [];
                 classPrefix := owning_prefix merged; warnings := [] |})
    in Hrun.
  destruct (members opts file (survivors merged) st0) as [st'| |] eqn:Hm;
    try discriminate Hrun.
  cbn in Hrun. injection Hrun as <- _.
  destruct (members_well_formed opts file (survivors merged) st0
              (survivors_documented merged)
              (initial_nodes_well_formed merged)) as [_ Hwf].
  specialize (Hwf st' Hm).
  apply post_process_lookup; [exact Hwf|].
  apply (members_invariant opts file
           (fun s => classPrefix s = Some (d_name c)
                     /\ obj_get (d_name c) (nodes s)
                        = Some (class_translation c)) (survivors merged))
    with (st := st0) (st' := st'); [| |exact Hm].
  - intros s d s' _ [Hcp Hget] Hstep.
    pose proof (member_step_Done opts file s s' d Hstep) as (_ & Hcp' & Hn).
    cbv zeta in Hn. rewrite Hcp in Hcp', Hn.
    destruct (member_name_under_class opts g (d_name c) Hg d) as [Hr _].
    rewrite Hr in Hcp'. split; [exact Hcp'|].
    destruct Hn as [(_ & _ & ->) | (_ & -> & _)]; [|exact Hget].
    rewrite obj_get_set_ne; [exact Hget|].
    apply (member_name_not_class opts g (d_name c) Hg d).
  - split.
    + cbn. unfold owning_prefix. now rewrite Hlast.
    + cbn [nodes st0].
      assert (Hin : In c (List.filter is_class_docset merged)).
      { destruct (List.filter is_class_docset merged) as [|x l] using rev_ind;
          [discriminate Hlast|].
        rewrite last_snoc in Hlast. injection Hlast as ->.
        apply in_or_app. right. now left. }
      destruct (put_class_lookup _ c Hin Hproto) as (c' & _ & _ & Hget & Hc).
      rewrite (Hc Hlast) in Hget. exact Hget.
Qed.

Lemma class_node_survives_witness :
  let c := plain_docset "class" "Foo" (Some "A class.") in
  let m := plain_docset "method" "bar" (Some "A method.") in
  exists result ws,
    @process_jsd insertion_order [c; m] "f.js" {| globalNS := Some "NS" |}
    = Done (result, ws)
    /\ result !! ("." +:+ d_name c)
       = Some (stamp "f.js" (class_translation c)).
Proof.
  intros c m. eexists _, _. split; [reflexivity|].
  apply (@class_node_survives insertion_order [c; m] "f.js"
           {| globalNS := Some "NS" |} _ [] c "NS").
  - reflexivity.
  - reflexivity.
  - reflexivity.
Defined.

(** ** Warnings *)

Lemma complete_member_warnings (memberName : string) (d : Docset) (n : Node) :
  (complete_member memberName d n).2
  = match d_params d with
    | Some ps => (translate_params memberName ps).2
    | None => []
    end.
Proof.
  unfold complete_member.
  destruct (d_params d) as [ps|];
    [destruct (translate_params memberName ps) as [args ws]|];
    reflexivity.
Qed.

Lemma member_step_warnings (opts : Options) (file : string)
  (st st' : AsmState) (d : Docset) :
  member_step opts file st d = Done st' ->
  warnings st'
  = (warnings st
     ++ step_warnings file (member_name opts (classPrefix st) d) d)%list.
Proof.
  rewrite member_step_unfold. cbv zeta.
  destruct (fatal_name opts st d); [discriminate|].
  unfold step_warnings, member_node, value_node.
  destruct (String.eqb (d_tagname d) "method" || is_event d).
  - destruct (createBasicTranslation _ _ d) as [n| |]; try discriminate.
    cbn. intros [= <-]. cbn [warnings].
    now rewrite complete_member_warnings.
  - destruct (is_value_kind (d_tagname d)).
    + destruct (createBasicTranslation _ _ d) as [n| |]; try discriminate.
      cbn. intros [= <-]. cbn. now rewrite app_nil_r.
    + intros [= <-]. reflexivity.
Qed.

Lemma members_warnings (opts : Options) (file : string) (l : list Docset)
  (st st' : AsmState) :
  members opts file l st = Done st' ->
  warnings st'
  = (warnings st
     ++ flat_map (fun d => step_warnings file
                             (member_name opts (classPrefix st) d) d) l)%list.
Proof.
  revert st. induction l as [|d l IH]; intros st Hrun.
  - injection Hrun as <-. cbn. now rewrite app_nil_r.
  - cbn [members] in Hrun.
    destruct (member_step opts file st d) as [st1| |] eqn:Hstep;
      try discriminate Hrun.
    cbn [mbind Outcome_bind] in Hrun.
    rewrite (IH st1 Hrun), (member_step_warnings _ _ _ _ _ Hstep).
    cbn [flat_map]. rewrite <- app_assoc. do 2 f_equal.
    apply flat_map_ext. intros i. f_equal.
    apply member_step_Done in Hstep as (_ & -> & _).
    unfold member_name. now rewrite resolve_prefix_stable.
Qed.

(** X13. The warnings of a run that ends with a map are those of the
    docsets that reach the members pass, in their order: for a method or
    an event the comma warnings of its parameters, for a docset with an
    unknown tag one warning that names the tag and the file, and nothing
    for a property, an attribute or a binding. *)
Theorem delivered_warnings `{Enumeration} (merged : list Docset)
  (file : string) (opts : Options) (result : gmap string Node)
  (ws : list Warning) :
  process_jsd merged file opts = Done (result, ws) ->
  ws = flat_map
         (fun d => step_warnings file
                     (member_name opts (owning_prefix merged) d) d)
         (survivors merged).
Proof.
  rewrite process_jsd_unfold.
  match goal with |- context [members opts file ?l ?st] =>
    destruct (members opts file l st) as [st'| |] eqn:Hm; try discriminate
  end.
  cbn [mbind Outcome_bind mret Outcome_ret]. intros [= _ <-].
  now rewrite (members_warnings _ _ _ _ _ Hm).
Qed.

Lemma delivered_warnings_witness :
  let c := plain_docset "class" "Foo" (Some "A class.") in
  let m := call_docset "method" "bar" "A method."
             (Some [ {| p_name := "a"; p_doc := "first";
                        p_type := "string,number"; p_optional := false |} ])
             None in
  let s := plain_docset "section" "Intro" (Some "A section.") in
  exists result ws,
    @process_jsd insertion_order [c; m; s] "f.js" {| globalNS := Some "NS" |}
    = Done (result, ws)
    /\ ws = [WarnCommaTypes "Foo.bar"; WarnUnknownTag "section" "f.js"].
Proof.
  intros c m s. eexists _, _. split; [reflexivity|].
  eapply (@delivered_warnings insertion_order [c; m; s] "f.js"
            {| globalNS := Some "NS" |}).
  reflexivity.
Defined.

(** X14. A docset tagged ["class"] that has no description but carries
    [inheritdoc] is no class: alone in a file, it gives an empty map and
    the warning for an unknown tag ["class"]. *)
Theorem undocumented_class_is_unknown `{Enumeration} (d : Docset)
  (file : string) (opts : Options) :
  d_tagname d = "class" -> d_doc d = None -> is_Some (d_inheritdoc d) ->
  process_jsd [d] file opts = Done (∅, [WarnUnknownTag "class" file]).
Proof.
  intros Ht Hd [ih Hi]. rewrite process_jsd_unfold.
  assert (Hc : is_class_docset d = false).
  { unfold is_class_docset. rewrite Hd. apply andb_false_r. }
  assert (Hk : keep_docset d = true).
  { unfold keep_docset. now rewrite Hd, Hi. }
  unfold survivors, filter_docsets, owning_prefix.
  cbn [List.filter]. rewrite Hc. cbn [negb List.filter]. rewrite Hk.
  cbn [members fold_left last fmap option_fmap option_map].
  rewrite member_step_unfold. cbv zeta.
  unfold fatal_name, is_event. rewrite Hi, Ht.
  rewrite (bool_decide_eq_false_2 (Some ih = None)) by discriminate.
  rewrite andb_false_r. cbn.
  pose proof (enumerate_perm []) as Hp.
  symmetry in Hp. apply Permutation_nil in Hp.
  now rewrite Hp.
Qed.

Lemma undocumented_class_is_unknown_witness :
  let d := {| d_tagname := "class"; d_name := "Foo"; d_doc := None;
              d_linenr := 3; d_type := None; d_params := None;
              d_return := None; d_inherits := None;
              d_inheritdoc := Some {| inheritdoc_src := "Base" |};
              d_see := None; d_author := None; d_version := None;
              d_since := None; d_private := None; d_experimental := None;
              d_chainable := None; d_bound := None; d_allowchild := None;
              d_define := None; d_cancelable := None; d_bubbles := None |} in
  @process_jsd insertion_order [d] "f.js" {| globalNS := None |}
  = Done (∅, [WarnUnknownTag "class" "f.js"]).
Proof.
  intros d.
  apply (@undocumented_class_is_unknown insertion_order d "f.js"
           {| globalNS := None |}); [reflexivity | reflexivity | now eexists].
Defined.

(** ** A file with one class *)

(** X15. A class docset with a description, alone in a file, is delivered
    as exactly one node, under ["."] and its name, whatever the
    description is (the filter, and so the ["@todo"] rule, is not applied
    to it) and whatever the options are; nothing is printed.  The one
    exception is a class named ["__proto__"], for which the delivered map
    is empty. *)
Theorem lone_class_is_delivered `{Enumeration} (c : Docset) (file : string)
  (opts : Options) :
  d_tagname c = "class" -> is_Some (d_doc c) ->
  process_jsd [c] file opts
  = Done (if String.eqb (d_name c) proto_key then ∅
          else {[ "." +:+ d_name c := stamp file (class_translation c) ]},
          []).
Proof.
  intros Ht Hd. rewrite process_jsd_unfold.
  assert (Hc : is_class_docset c = true)
    by now apply is_class_docset_spec.
  unfold survivors, filter_docsets, owning_prefix.
  cbn [List.filter]. rewrite Hc.
  cbn [negb List.filter members fold_left mbind Outcome_bind mret Outcome_ret
       nodes warnings].
  unfold put_class, obj_set.
  destruct (String.eqb (d_name c) proto_key) eqn:E.
  { pose proof (enumerate_perm []) as Hnil.
    symmetry in Hnil. apply Permutation_nil in Hnil.
    cbn [nodes warnings]. now rewrite Hnil. }
  cbn [assoc_set].
  pose proof (enumerate_perm [(d_name c, class_translation c)]) as Hperm.
  symmetry in Hperm. apply Permutation_length_1_inv in Hperm.
  rewrite Hperm. cbn [fmap list_fmap snd].
  unfold post_process. cbn [fold_left].
  destruct (class_translation_fields c) as (H1 & H2 & _ & _ & _ & H3 & H4).
  rewrite post_step_plain_self.
  - now rewrite H1, insert_empty.
  - unfold plain_node. rewrite H2, H3, H4. now repeat split.
Qed.

Lemma lone_class_is_delivered_witness :
  let c := plain_docset "class" "Foo" (Some "@todo write this") in
  @process_jsd insertion_order [c] "f.js" {| globalNS := None |}
  = Done ({[ "." +:+ d_name c := stamp "f.js" (class_translation c) ]}, []).
Proof.
  intros c.
  apply (@lone_class_is_delivered insertion_order c "f.js"
           {| globalNS := None |});
    [reflexivity | now eexists].
Defined.

(** ** Post-processing of any [nodes] object *)

Lemma stamped_stamp (file : string) (n : Node) : stamped file (stamp file n).
Proof.
  destruct (stamp_fields file n) as (_ & _ & _ & _ & H).
  destruct (stamp_keeps file n) as (K1 & K2 & _).
  now repeat split.
Qed.

Lemma stamped_set_bound (file : string) (v : BoundVal) (n : Node) :
  stamped file n -> stamped file (set_bound v n).
Proof. now destruct n. Qed.

Lemma stamped_set_id (file id : string) (n : Node) :
  stamped file n -> stamped file (set_id id n).
Proof. now destruct n. Qed.

Lemma obj_put_Forall (P : string -> Node -> Prop) (k : string) (v : Node)
  (l : gmap string Node) :
  map_Forall P l -> P k v -> map_Forall P (obj_put k v l).
Proof.
  intros Hl Hv. unfold obj_put.
  destruct (String.eqb k proto_key); [exact Hl | now apply map_Forall_insert_2].
Qed.

Lemma obj_put_size (k : string) (v : Node) (l : gmap string Node) :
  (size (obj_put k v l) <= S (size l))%nat.
Proof.
  unfold obj_put. destruct (String.eqb k proto_key); [lia|].
  destruct (l !! k) eqn:E.
  - rewrite map_size_insert_Some by eauto. lia.
  - rewrite map_size_insert_None by exact E. lia.
Qed.

(** X16. Whatever the [nodes] object holds (sections and bound methods
    included), every node that post-processing stores carries the file name
    and empty [aliases] and [children], and the map it builds has at most
    two entries per node. *)
Theorem post_process_stamps (file : string) (ns : list Node) :
  map_Forall (fun _ n => stamped file n) (post_process file ns)
  /\ (size (post_process file ns) <= 2 * length ns)%nat.
Proof.
  unfold post_process.
  assert (G : forall acc,
    map_Forall (fun _ n => stamped file n) acc ->
    map_Forall (fun _ n => stamped file n) (fold_left (post_step file) ns acc)
    /\ (size (fold_left (post_step file) ns acc)
        <= size acc + 2 * length ns)%nat).
  { induction ns as [|n ns IH]; intros acc Hacc; [split; [exact Hacc | cbn; lia]|].
    cbn [fold_left length].
    assert (Hstep : map_Forall (fun _ n0 => stamped file n0)
                      (post_step file acc n)
                    /\ (size (post_step file acc n) <= size acc + 2)%nat).
    { unfold post_step. cbv zeta.
      pose proof (stamped_stamp file n) as Hs.
      destruct (String.eqb "section" (n_type (stamp file n))).
      - split; [now apply obj_put_Forall|].
        pose proof (obj_put_size (n_id (stamp file n)) (stamp file n) acc). lia.
      - destruct (String.eqb "method" (n_type (stamp file n))
                  && bound_truthy (n_bound (stamp file n))).
        + split.
          * apply obj_put_Forall; [apply obj_put_Forall; [exact Hacc|]|].
            -- now apply stamped_set_bound.
            -- now apply stamped_set_bound, stamped_set_id.
          * match goal with |- (size (obj_put ?k2 ?v2 (obj_put ?k1 ?v1 _)) <= _)%nat =>
              pose proof (obj_put_size k2 v2 (obj_put k1 v1 acc));
              pose proof (obj_put_size k1 v1 acc)
            end. lia.
        + split; [now apply obj_put_Forall|].
          match goal with |- (size (obj_put ?k1 ?v1 _) <= _)%nat =>
            pose proof (obj_put_size k1 v1 acc)
          end. lia. }
    destruct Hstep as [H1 H2].
    destruct (IH _ H1) as [H3 H4]. split; [exact H3 | lia]. }
  destruct (G ∅ (map_Forall_empty _)) as [H1 H2].
  split; [exact H1|]. rewrite map_size_empty in H2. lia.
Qed.

(** ** Exceptions *)

(** X17. [createBasicTranslation] throws exactly on a docset that has
    neither a description nor [inheritdoc]; [process_jsd] never hands it
    one, so that no run ends in an exception: it ends with a map or on the
    fatal naming path. *)
Theorem no_exception_escapes `{Enumeration} (merged : list Docset)
  (file : string) (opts : Options) :
  (forall memberName type d,
     createBasicTranslation memberName type d = Thrown
     <-> d_doc d = None /\ d_inheritdoc d = None)
  /\ process_jsd merged file opts <> Thrown.
Proof.
  split; [|apply process_jsd_never_throws].
  intros memberName type d. unfold createBasicTranslation.
  destruct (d_inheritdoc d), (d_doc d); split;
    first [discriminate | intros [? ?]; discriminate | auto].
Qed.

(** ** Ids that coincide *)

(** X18. Under an owning class and with [options.globalNS] defined, two
    docsets get the same id exactly when they have the same name and are
    both events or both no events: an event never shares its id with a
    method or a property, while a method and a property of one name do
    share theirs. *)
Theorem same_id_same_name (opts : Options) (c g : string) (d1 d2 : Docset) :
  globalNS opts = Some g ->
  member_name opts (Some c) d1 = member_name opts (Some c) d2
  <-> is_event d1 = is_event d2 /\ d_name d1 = d_name d2.
Proof.
  intros Hg.
  destruct (member_name_under_class opts g c Hg d1) as [_ ->].
  destruct (member_name_under_class opts g c Hg d2) as [_ ->].
  unfold join_of. split.
  - intros E. apply String.app_inj in E.
    destruct (is_event d1), (is_event d2); try discriminate E;
      apply String.app_inj in E; auto.
  - intros [-> ->]. reflexivity.
Qed.

Lemma same_id_same_name_witness :
  let opts := {| globalNS := Some "NS" |} in
  let m := plain_docset "method" "bar" (Some "A method.") in
  let p := value_docset "property" "bar" "A property." "Number" in
  member_name opts (Some "Foo") m = member_name opts (Some "Foo") p
  <-> is_event m = is_event p /\ d_name m = d_name p.
Proof.
  intros opts m p.
  apply (same_id_same_name opts "Foo" "NS" m p). reflexivity.
Defined.

(** ** The [bound] flag of a docset *)








(** ** Docsets that no pass takes *)








